(** * The extension manager of [api/src/extensions.ts]

    A shallow embedding of the [ExtensionManager] class: its fields, the
    collaborators it mutates (event bus, cron scheduler, module cache,
    logger) and its methods, written as computations in a state-and-exception
    monad.  The [async] methods are sequential chains of [await]s; they are
    modelled as run to completion, one lifecycle operation at a time. *)

From Stdlib Require Import Ascii.
From stdpp Require Import base option list strings gmap.

(** ** Data model *)

(** A thrown JavaScript value. *)
Definition Err : Type := string.

(** What a call into a collaborator or into extension code does. *)
Inductive Outcome (A : Type) : Type :=
| returns (a : A)
| throws (e : Err).
Arguments returns {A} a.
Arguments throws {A} e.

(** [Extension], from [@directus/shared/types]: the fields the manager reads.
    [type] is a string at run time ('hook', 'endpoint', 'interface', ...). *)
Record Extension : Type := {
  name : string;
  type : string;
  path : string;
  entrypoint : option string;
}.

(** A function value is known by its identity; [===] on functions is equality
    of identities. *)
Definition ListenerFn : Type := nat.

(** A [ScheduledTask] handle: the position of the task in the scheduler's
    table. *)
Definition ScheduledTask : Type := nat.

(** An element of [apiHooks]. *)
Inductive ApiHook : Type :=
| cron_hook (path : string) (task : ScheduledTask)
| event_hook (path : string) (event : string) (handler : ListenerFn).

(** The default export of a hook module: the registration function, given by
    what calling it on the capability bundle does (building the bundle, with
    its call of [getDatabase()], included); on return, [Object.entries] of
    the returned mapping. *)
Definition HookConfig : Type := Outcome (list (string * ListenerFn)).

(** The default export of an endpoint module: a registration function, or an
    object with an [id] and a [handler]. *)
Inductive EndpointConfig : Type :=
| endpoint_function (register : Outcome unit)
| endpoint_object (id : string) (handler : Outcome unit).

(** A task in the table of node-cron: the handler its callback closes over. *)
Record CronTask : Type := {
  task_expression : string;
  task_handler : ListenerFn;
  task_destroyed : bool;
}.

Inductive Level : Type := info | warn | error.

Inductive LogArg : Type :=
| text (s : string)
| thrown (e : Err).

(** The calls that leave the manager, in the order they are made. *)
Inductive Call : Type :=
| call_logger (l : Level) (a : LogArg)
| call_ensureExtensionDirs (root : string) (types : list string)
| call_getPackageExtensions (root : string) (types : list string)
| call_getLocalExtensions (root : string) (types : list string)
| call_readdir (dir : string)
| call_rollup (entry : string)
| call_installPackage (name : string)
| call_register (path : string)
| call_handler (handler : ListenerFn).

(** The fields of [ExtensionManager], followed by the state of the objects it
    shares with the host: the listeners of [emitter], the task table of
    node-cron, the keys of [require.cache] and the calls made so far. *)
Record State : Type := {
  isInitialized : bool;
  extensions : list Extension;
  appExtensions : gmap string string;
  apiHooks : list ApiHook;
  apiEndpoints : list string;
  endpointRouter : list string;
  isScheduleHookEnabled : bool;
  emitter : list (string * ListenerFn);
  cron_tasks : list CronTask;
  require_cache : gset string;
  trace : list Call;
}.

(** [env]: the configuration read by the manager. *)
Record Env : Type := {
  SERVE_APP : bool;
  EXTENSIONS_PATH : string;
  PUBLIC_URL : string;
}.

(** The imports from [@directus/shared/constants].  The two regular
    expressions are taken by what the manager does with them:
    [EXTENSION_NAME_REGEX.test(name)] and
    [event.match(REGEX_BETWEEN_PARENS)?.[1]]. *)
Record Constants : Type := {
  API_EXTENSION_PACKAGE_TYPES : list string;
  API_EXTENSION_TYPES : list string;
  APP_EXTENSION_TYPES : list string;
  APP_SHARED_DEPS : list string;
  EXTENSION_NAME_REGEX : string → bool;
  EXTENSION_PACKAGE_TYPES : list string;
  EXTENSION_TYPES : list string;
  REGEX_BETWEEN_PARENS : string → option string;
}.

(** Pure library functions: [validate] of node-cron, [path.resolve],
    [generateExtensionsEntry], the directory
    [path.join(resolvePackage('@directus/app'), 'dist')] and
    [new Url(base).addPath('admin', file).toString({ rootRelative: true })]. *)
Record Lib : Type := {
  validate : string → bool;
  path_resolve : string → string → string;
  generateExtensionsEntry : string → list Extension → string;
  app_dist : string;
  admin_url : string → string → string;
}.

(** What the file system, the module loader, the bundler, the package
    installer and the handlers of the extensions answer while one operation
    runs. *)
Record World : Type := {
  ensureExtensionDirs_result : string → list string → Outcome unit;
  getPackageExtensions_result : string → list string → Outcome (list Extension);
  getLocalExtensions_result : string → list string → Outcome (list Extension);
  require_resolve : string → Outcome string;
  load_hook : string → Outcome HookConfig;
  load_endpoint : string → Outcome EndpointConfig;
  readdir_result : string → Outcome (list string);
  rollup_result : string → list string → list (string * string) → Outcome string;
  installPackage_result : string → bool;
  handler_result : ListenerFn → Outcome unit;
}.

(** ** Field updates *)

Definition set_isInitialized (v : bool) (s : State) : State :=
  {| isInitialized := v; extensions := extensions s;
     appExtensions := appExtensions s; apiHooks := apiHooks s;
     apiEndpoints := apiEndpoints s; endpointRouter := endpointRouter s;
     isScheduleHookEnabled := isScheduleHookEnabled s; emitter := emitter s;
     cron_tasks := cron_tasks s; require_cache := require_cache s;
     trace := trace s |}.

Definition set_extensions (v : list Extension) (s : State) : State :=
  {| isInitialized := isInitialized s; extensions := v;
     appExtensions := appExtensions s; apiHooks := apiHooks s;
     apiEndpoints := apiEndpoints s; endpointRouter := endpointRouter s;
     isScheduleHookEnabled := isScheduleHookEnabled s; emitter := emitter s;
     cron_tasks := cron_tasks s; require_cache := require_cache s;
     trace := trace s |}.

Definition set_appExtensions (v : gmap string string) (s : State) : State :=
  {| isInitialized := isInitialized s; extensions := extensions s;
     appExtensions := v; apiHooks := apiHooks s;
     apiEndpoints := apiEndpoints s; endpointRouter := endpointRouter s;
     isScheduleHookEnabled := isScheduleHookEnabled s; emitter := emitter s;
     cron_tasks := cron_tasks s; require_cache := require_cache s;
     trace := trace s |}.

Definition set_apiHooks (v : list ApiHook) (s : State) : State :=
  {| isInitialized := isInitialized s; extensions := extensions s;
     appExtensions := appExtensions s; apiHooks := v;
     apiEndpoints := apiEndpoints s; endpointRouter := endpointRouter s;
     isScheduleHookEnabled := isScheduleHookEnabled s; emitter := emitter s;
     cron_tasks := cron_tasks s; require_cache := require_cache s;
     trace := trace s |}.

Definition set_apiEndpoints (v : list string) (s : State) : State :=
  {| isInitialized := isInitialized s; extensions := extensions s;
     appExtensions := appExtensions s; apiHooks := apiHooks s;
     apiEndpoints := v; endpointRouter := endpointRouter s;
     isScheduleHookEnabled := isScheduleHookEnabled s; emitter := emitter s;
     cron_tasks := cron_tasks s; require_cache := require_cache s;
     trace := trace s |}.

Definition set_endpointRouter (v : list string) (s : State) : State :=
  {| isInitialized := isInitialized s; extensions := extensions s;
     appExtensions := appExtensions s; apiHooks := apiHooks s;
     apiEndpoints := apiEndpoints s; endpointRouter := v;
     isScheduleHookEnabled := isScheduleHookEnabled s; emitter := emitter s;
     cron_tasks := cron_tasks s; require_cache := require_cache s;
     trace := trace s |}.

Definition set_isScheduleHookEnabled (v : bool) (s : State) : State :=
  {| isInitialized := isInitialized s; extensions := extensions s;
     appExtensions := appExtensions s; apiHooks := apiHooks s;
     apiEndpoints := apiEndpoints s; endpointRouter := endpointRouter s;
     isScheduleHookEnabled := v; emitter := emitter s;
     cron_tasks := cron_tasks s; require_cache := require_cache s;
     trace := trace s |}.

Definition set_emitter (v : list (string * ListenerFn)) (s : State) : State :=
  {| isInitialized := isInitialized s; extensions := extensions s;
     appExtensions := appExtensions s; apiHooks := apiHooks s;
     apiEndpoints := apiEndpoints s; endpointRouter := endpointRouter s;
     isScheduleHookEnabled := isScheduleHookEnabled s; emitter := v;
     cron_tasks := cron_tasks s; require_cache := require_cache s;
     trace := trace s |}.

Definition set_cron_tasks (v : list CronTask) (s : State) : State :=
  {| isInitialized := isInitialized s; extensions := extensions s;
     appExtensions := appExtensions s; apiHooks := apiHooks s;
     apiEndpoints := apiEndpoints s; endpointRouter := endpointRouter s;
     isScheduleHookEnabled := isScheduleHookEnabled s; emitter := emitter s;
     cron_tasks := v; require_cache := require_cache s;
     trace := trace s |}.

Definition set_require_cache (v : gset string) (s : State) : State :=
  {| isInitialized := isInitialized s; extensions := extensions s;
     appExtensions := appExtensions s; apiHooks := apiHooks s;
     apiEndpoints := apiEndpoints s; endpointRouter := endpointRouter s;
     isScheduleHookEnabled := isScheduleHookEnabled s; emitter := emitter s;
     cron_tasks := cron_tasks s; require_cache := v;
     trace := trace s |}.

Definition set_trace (v : list Call) (s : State) : State :=
  {| isInitialized := isInitialized s; extensions := extensions s;
     appExtensions := appExtensions s; apiHooks := apiHooks s;
     apiEndpoints := apiEndpoints s; endpointRouter := endpointRouter s;
     isScheduleHookEnabled := isScheduleHookEnabled s; emitter := emitter s;
     cron_tasks := cron_tasks s; require_cache := require_cache s;
     trace := v |}.

(** ** The monad of the methods *)

(** A method either returns a value or throws; in both cases the mutations it
    made so far are kept. *)
Inductive Result (A : Type) : Type :=
| Ok (a : A) (s : State)
| Throw (e : Err) (s : State).
Arguments Ok {A} a s.
Arguments Throw {A} e s.

Definition M (A : Type) : Type := State → Result A.

Definition state_of {A : Type} (r : Result A) : State :=
  match r with Ok _ s => s | Throw _ s => s end.

#[global] Instance M_ret : MRet M := λ A a s, Ok a s.

#[global] Instance M_bind : MBind M := λ A B f m s,
  match m s with
  | Ok a s' => f a s'
  | Throw e s' => Throw e s'
  end.

Definition get : M State := λ s, Ok s s.

Definition modify (f : State → State) : M unit := λ s, Ok tt (f s).

Definition throw {A : Type} (e : Err) : M A := λ s, Throw e s.

(** [try { body } catch (err) { handler }] *)
Definition try_catch {A : Type} (body : M A) (handler : Err → M A) : M A :=
  λ s, match body s with
       | Ok a s' => Ok a s'
       | Throw e s' => handler e s'
       end.

(** The outcome of a collaborator, as a computation. *)
Definition lift {A : Type} (o : Outcome A) : M A :=
  match o with
  | returns a => mret a
  | throws e => throw e
  end.

(** [for (const x of l) { body }] *)
Fixpoint for_of {A : Type} (l : list A) (body : A → M unit) : M unit :=
  match l with
  | [] => mret tt
  | x :: l' => body x ;; for_of l' body
  end.

Definition record (c : Call) : M unit :=
  modify (λ s, set_trace (trace s ++ [c]) s).

(** ** Properties of computations *)

(** [keeps P m]: when [P] holds before [m] it holds after it, whether [m]
    returns or throws. *)
Definition keeps {A : Type} (P : State → Prop) (m : M A) : Prop :=
  ∀ s, P s → P (state_of (m s)).

(** [total m]: [m] cannot throw. *)
Definition total {A : Type} (m : M A) : Prop :=
  ∀ s, ∃ a s', m s = Ok a s'.

(** ** Collaborators *)

(** [s.replace(/\//g, '_')] *)
Fixpoint replace_slashes (s : string) : string :=
  match s with
  | EmptyString => EmptyString
  | String c s' =>
      String (if Ascii.eqb c "/"%char then "_"%char else c) (replace_slashes s')
  end.

(** [file.substring(0, file.indexOf('.'))]: the text before the first dot,
    and the empty string when there is none ([indexOf] is then -1). *)
Fixpoint before_dot_aux (s : string) : option string :=
  match s with
  | EmptyString => None
  | String c s' =>
      if Ascii.eqb c "."%char then Some EmptyString
      else String c <$> before_dot_aux s'
  end.

Definition before_dot (file : string) : string :=
  default "" (before_dot_aux file).

(** [obj[k] = v] on an object whose keys are listed in insertion order. *)
Fixpoint obj_set (k v : string) (obj : list (string * string))
  : list (string * string) :=
  match obj with
  | [] => [(k, v)]
  | (k', v') :: obj' =>
      if String.eqb k k' then (k, v) :: obj' else (k', v') :: obj_set k v obj'
  end.

(** [l.join(', ')] *)
Definition join (sep : string) (l : list string) : string :=
  String.concat sep l.

Definition dquote : string := String (Ascii.ascii_of_nat 34) EmptyString.

(** Modelled from the spec: the event bus of [./emitter] is not part of the
    source at hand.  Its listeners are kept as the list of the subscriptions
    made, each an event name and the reference of the handler.
    [emitter.off(event, handler)] removes one listener, the first that is
    this very handler on this event ("exact-identity unsubscription"), and
    does nothing when there is none. *)
Fixpoint remove_first {A : Type} `{EqDecision A} (x : A) (l : list A) : list A :=
  match l with
  | [] => []
  | y :: l' => if decide (x = y) then l' else y :: remove_first x l'
  end.

(** Modelled from the spec: [./logger] is not part of the source at hand; a
    call of [logger.info], [logger.warn] or [logger.error] is kept in the
    trace and does nothing else. *)
Definition logger (l : Level) (a : LogArg) : M unit := record (call_logger l a).

(** Modelled from the spec: [emitter.on(event, handler)] of [./emitter]
    subscribes the handler as it is, after the listeners already there. *)
Definition emitter_on (event : string) (handler : ListenerFn) : M unit :=
  modify (λ s, set_emitter (emitter s ++ [(event, handler)]) s).

(** Modelled from the spec: [emitter.off(event, handler)] of [./emitter],
    see [remove_first]. *)
Definition emitter_off (event : string) (handler : ListenerFn) : M unit :=
  modify (λ s, set_emitter (remove_first (event, handler) (emitter s)) s).

(** Modelled from the spec: node-cron is a library outside the source at
    hand.  [schedule(cron, callback)] makes a new running task and returns
    its handle.  The callback is the arrow function of [registerHook], kept
    by the handler it closes over. *)
Definition schedule (expression : string) (handler : ListenerFn)
  : M ScheduledTask :=
  s ← get;
  modify (set_cron_tasks
            (cron_tasks s ++ [{| task_expression := expression;
                                 task_handler := handler;
                                 task_destroyed := false |}]));;
  mret (length (cron_tasks s)).

(** Modelled from the spec: [task.destroy()] of node-cron removes the future
    firings of the task ("the task must be explicitly destroyed on
    teardown"); the other tasks are untouched. *)
Definition destroy (task : ScheduledTask) : M unit :=
  modify (λ s, set_cron_tasks
                 (alter (λ t, {| task_expression := task_expression t;
                                 task_handler := task_handler t;
                                 task_destroyed := true |}) task (cron_tasks s))
                 s).

(** The tasks node-cron still fires. *)
Definition active_task (s : State) (task : ScheduledTask) : Prop :=
  ∃ t, cron_tasks s !! task = Some t ∧ task_destroyed t = false.

Section Manager.

Variable env : Env.
Variable K : Constants.
Variable lib : Lib.

(** [require(p)] followed by [getModuleDefault]: the path is resolved, the
    module loaded and kept in [require.cache] under its resolved name. *)
Definition require {A : Type} (w : World) (load : World → string → Outcome A)
    (p : string) : M A :=
  file ← lift (require_resolve w p);
  m ← lift (load w file);
  modify (λ s, set_require_cache ({[file]} ∪ require_cache s) s);;
  mret m.

(** [delete require.cache[require.resolve(p)]] *)
Definition delete_require_cache (w : World) (p : string) : M unit :=
  file ← lift (require_resolve w p);
  modify (λ s, set_require_cache (require_cache s ∖ {[file]}) s).

Definition ensureExtensionDirs (w : World) (root : string) (types : list string)
  : M unit :=
  record (call_ensureExtensionDirs root types);;
  lift (ensureExtensionDirs_result w root types).

Definition getPackageExtensions (w : World) (root : string)
    (types : list string) : M (list Extension) :=
  record (call_getPackageExtensions root types);;
  lift (getPackageExtensions_result w root types).

Definition getLocalExtensions (w : World) (root : string)
    (types : list string) : M (list Extension) :=
  record (call_getLocalExtensions root types);;
  lift (getLocalExtensions_result w root types).

Definition readdir (w : World) (dir : string) : M (list string) :=
  record (call_readdir dir);;
  lift (readdir_result w dir).

(** [rollup(...)], [bundle.generate(...)] and [bundle.close()]: one call of
    the bundler, which gives the code of [output[0]] or throws. *)
Definition rollup (w : World) (entry : string) (external : list string)
    (aliases : list (string * string)) : M string :=
  record (call_rollup entry);;
  lift (rollup_result w entry external aliases).

Definition installPackage (w : World) (name : string) : M bool :=
  record (call_installPackage name);;
  mret (installPackage_result w name).

(** [await handler()] *)
Definition invoke_handler (w : World) (handler : ListenerFn) : M unit :=
  record (call_handler handler);;
  lift (handler_result w handler).

(** ** The methods of [ExtensionManager] *)

(** The fields as the class initialises them, on a host where nothing is
    subscribed, scheduled, cached or logged yet. *)
Definition new_ExtensionManager : State :=
  {| isInitialized := false; extensions := []; appExtensions := ∅;
     apiHooks := []; apiEndpoints := []; endpointRouter := [];
     isScheduleHookEnabled := true; emitter := []; cron_tasks := [];
     require_cache := ∅; trace := [] |}.

Definition listExtensions (type' : option string) : M (list string) :=
  s ← get;
  match type' with
  | None => mret (map name (extensions s))
  | Some t =>
      mret (map name
              (filter (λ extension, type extension = t) (extensions s)))
  end.


Definition getEndpointRouter : M (list string) :=
  s ← get; mret (endpointRouter s).

Definition getExtensions (w : World) : M (list Extension) :=
  packageExtensions ←
    getPackageExtensions w "."
      (if SERVE_APP env then EXTENSION_PACKAGE_TYPES K
       else API_EXTENSION_PACKAGE_TYPES K);
  localExtensions ←
    getLocalExtensions w (EXTENSIONS_PATH env)
      (if SERVE_APP env then EXTENSION_TYPES K else API_EXTENSION_TYPES K);
  mret (packageExtensions ++ localExtensions).

(** The loop over [deps] in [getSharedDepsMapping]. *)
Fixpoint getSharedDepsMapping_loop (appDir deps : list string)
    (depsMapping : list (string * string)) : M (list (string * string)) :=
  match deps with
  | [] => mret depsMapping
  | dep :: deps' =>
      match find (λ file, String.eqb (replace_slashes dep) (before_dot file))
              appDir with
      | Some depName =>
          if String.eqb depName "" then
            (logger warn
               (text ("Couldn't find shared extension dependency "
                        +:+ dquote +:+ dep +:+ dquote));;
             getSharedDepsMapping_loop appDir deps' depsMapping)
          else
            getSharedDepsMapping_loop appDir deps'
              (obj_set dep (admin_url lib (PUBLIC_URL env) depName) depsMapping)
      | None =>
          logger warn
            (text ("Couldn't find shared extension dependency "
                     +:+ dquote +:+ dep +:+ dquote));;
          getSharedDepsMapping_loop appDir deps' depsMapping
      end
  end.

Definition getSharedDepsMapping (w : World) (deps : list string)
  : M (list (string * string)) :=
  appDir ← readdir w (app_dist lib);
  getSharedDepsMapping_loop appDir deps [].

(** The loop over [APP_EXTENSION_TYPES] in [generateExtensionBundles];
    [internalImports] lists the same pairs as [sharedDepsMapping], as
    [{ find, replacement }]. *)
Fixpoint generateExtensionBundles_loop (w : World)
    (sharedDepsMapping : list (string * string)) (types : list string)
    (bundles : gmap string string) : M (gmap string string) :=
  match types with
  | [] => mret bundles
  | extensionType :: types' =>
      s ← get;
      let entry := generateExtensionsEntry lib extensionType (extensions s) in
      code ← rollup w entry (map snd sharedDepsMapping) sharedDepsMapping;
      generateExtensionBundles_loop w sharedDepsMapping types'
        (<[extensionType := code]> bundles)
  end.

Definition generateExtensionBundles (w : World) : M (gmap string string) :=
  sharedDepsMapping ← getSharedDepsMapping w (APP_SHARED_DEPS K);
  generateExtensionBundles_loop w sharedDepsMapping (APP_EXTENSION_TYPES K) ∅.

(** The arrow function given to [schedule] in [registerHook]. *)
Definition cron_callback (w : World) (handler : ListenerFn) : M unit :=
  s ← get;
  if isScheduleHookEnabled s then
    try_catch (invoke_handler w handler) (λ error', logger error (thrown error'))
  else mret tt.

(** [!cron] *)
Definition falsy (cron : option string) : bool :=
  match cron with
  | None => true
  | Some c => String.eqb c ""
  end.

(** [`${cron}`] *)
Definition show_cron (cron : option string) : string :=
  default "undefined" cron.

(** One turn of the loop over [Object.entries(events)] in [registerHook]. *)
Definition registerHook_entry (hookPath : string)
    (entry : string * ListenerFn) : M unit :=
  let '(event, handler) := entry in
  if String.prefix "cron(" event then
    let cron := REGEX_BETWEEN_PARENS K event in
    if falsy cron || negb (validate lib (default "" cron)) then
      logger warn
        (text ("Couldn't register cron hook. Provided cron is invalid: "
                 +:+ show_cron cron))
    else
      (task ← schedule (default "" cron) handler;
       modify (λ s, set_apiHooks (apiHooks s ++ [cron_hook hookPath task]) s))
  else
    (emitter_on event handler;;
     modify
       (λ s, set_apiHooks (apiHooks s ++ [event_hook hookPath event handler]) s)).

Definition registerHook (w : World) (hook : Extension) : M unit :=
  let hookPath := path_resolve lib (path hook) (default "" (entrypoint hook)) in
  register ← require w load_hook hookPath;
  record (call_register hookPath);;
  events ← lift register;
  for_of events (registerHook_entry hookPath).

Definition registerEndpoint (w : World) (endpoint : Extension) : M unit :=
  let endpointPath :=
    path_resolve lib (path endpoint) (default "" (entrypoint endpoint)) in
  mod' ← require w load_endpoint endpointPath;
  let register :=
    match mod' with
    | endpoint_function f => f
    | endpoint_object _ handler => handler
    end in
  let routeName :=
    match mod' with
    | endpoint_function _ => name endpoint
    | endpoint_object id _ => id
    end in
  modify (λ s, set_endpointRouter (endpointRouter s ++ ["/" +:+ routeName]) s);;
  record (call_register endpointPath);;
  lift register;;
  modify (λ s, set_apiEndpoints (apiEndpoints s ++ [endpointPath]) s).

Definition registerHooks (w : World) : M unit :=
  s ← get;
  let hooks := filter (λ extension, type extension = "hook") (extensions s) in
  for_of hooks (λ hook,
    try_catch (registerHook w hook)
      (λ error',
         logger warn
           (text ("Couldn't register hook " +:+ dquote +:+ name hook +:+ dquote));;
         logger warn (thrown error'))).

Definition registerEndpoints (w : World) : M unit :=
  s ← get;
  let endpoints :=
    filter (λ extension, type extension = "endpoint") (extensions s) in
  for_of endpoints (λ endpoint,
    try_catch (registerEndpoint w endpoint)
      (λ error',
         logger warn
           (text ("Couldn't register endpoint "
                    +:+ dquote +:+ name endpoint +:+ dquote));;
         logger warn (thrown error'))).

(** One turn of the loop of [unregisterHooks]. *)
Definition unregisterHook (w : World) (hook : ApiHook) : M unit :=
  match hook with
  | cron_hook p task => (destroy task;; delete_require_cache w p)
  | event_hook p event handler =>
      (emitter_off event handler;; delete_require_cache w p)
  end.

Definition unregisterHooks (w : World) : M unit :=
  s ← get;
  for_of (apiHooks s) (unregisterHook w);;
  modify (set_apiHooks []).

Definition unregisterEndpoints (w : World) : M unit :=
  s ← get;
  for_of (apiEndpoints s) (delete_require_cache w);;
  modify (set_endpointRouter []);;
  modify (set_apiEndpoints []).

(** [initialize({ schedule })]; a call without argument is
    [initialize w true]. *)
Definition initialize (w : World) (schedule' : bool) : M unit :=
  modify (set_isScheduleHookEnabled schedule');;
  s ← get;
  if isInitialized s then mret tt
  else
    (try_catch
       (ensureExtensionDirs w (EXTENSIONS_PATH env)
          (if SERVE_APP env then EXTENSION_TYPES K else API_EXTENSION_TYPES K);;
        found ← getExtensions w;
        modify (set_extensions found))
       (λ err,
          logger warn (text "Couldn't load extensions");;
          logger warn (thrown err));;
     registerHooks w;;
     registerEndpoints w;;
     (if SERVE_APP env then
        (bundles ← generateExtensionBundles w;
         modify (set_appExtensions bundles))
      else mret tt);;
     loadedExtensions ← listExtensions None;
     (if bool_decide (0 < length loadedExtensions) then
        logger info
          (text ("Loaded extensions: " +:+ join ", " loadedExtensions))
      else mret tt);;
     modify (set_isInitialized true)).

Definition reload (w : World) : M unit :=
  s ← get;
  if negb (isInitialized s) then mret tt
  else
    (logger info (text "Reloading extensions");;
     unregisterHooks w;;
     unregisterEndpoints w;;
     (if SERVE_APP env then modify (set_appExtensions ∅) else mret tt);;
     modify (set_isInitialized false);;
     initialize w true).

Definition install (w : World) (name' : string) : M bool :=
  if negb (EXTENSION_NAME_REGEX K name') then mret false
  else
    (installed ← installPackage w name';
     if negb installed then mret false
     else (reload w;; mret true)).

(** ** The host *)

(** Modelled from the spec: node-cron fires a task at its time; the
    callback then runs, unless the task was destroyed. *)
Definition fire (w : World) (task : ScheduledTask) : M unit :=
  s ← get;
  match cron_tasks s !! task with
  | Some t =>
      if task_destroyed t then mret tt else cron_callback w (task_handler t)
  | None => mret tt
  end.

(** What the host can ask of the manager, and what happens to it. *)
Inductive Op : Type :=
| op_initialize (schedule' : bool)
| op_reload
| op_install (name' : string)
| op_listExtensions (type' : option string)
| op_fire (task : ScheduledTask).

Definition run_op (w : World) (op : Op) (s : State) : State :=
  match op with
  | op_initialize b => state_of (initialize w b s)
  | op_reload => state_of (reload w s)
  | op_install n => state_of (install w n s)
  | op_listExtensions t => state_of (listExtensions t s)
  | op_fire task => state_of (fire w task s)
  end.

(** The state after a sequence of operations; an operation that throws
    leaves the state it had reached. *)
Definition run (ops : list (World * Op)) (s : State) : State :=
  foldl (λ s '(w, op), run_op w op s) s ops.

(** ** The vocabulary of the properties *)

(** What a fired callback adds to the trace when schedules are enabled: the
    call of the handler and, when the handler throws, the logged error. *)
Definition fired (w : World) (handler : ListenerFn) : list Call :=
  call_handler handler ::
  match handler_result w handler with
  | returns _ => []
  | throws e => [call_logger error (thrown e)]
  end.

(** The keys of a hook mapping that [registerHook] turns into a task. *)
Definition valid_cron_key (event expression : string) : Prop :=
  String.prefix "cron(" event = true
  ∧ REGEX_BETWEEN_PARENS K event = Some expression
  ∧ expression ≠ ""
  ∧ validate lib expression = true.

(** The keys it reports and skips. *)
Definition invalid_cron_key (event : string) : Prop :=
  String.prefix "cron(" event = true
  ∧ (falsy (REGEX_BETWEEN_PARENS K event)
     || negb (validate lib (default "" (REGEX_BETWEEN_PARENS K event)))) = true.

(** The warning logged for an invalid cron key. *)
Definition invalid_cron_warning (event : string) : Call :=
  call_logger warn
    (text ("Couldn't register cron hook. Provided cron is invalid: "
             +:+ show_cron (REGEX_BETWEEN_PARENS K event))).

(** What [registerHook] leaves behind for the entry [event ↦ handler] of the
    hook module at [p]: a listener on the bus and its record for a plain
    event, a running task and its record for a valid cron key, a warning for
    an invalid one. *)
Definition entry_registered (p event : string) (handler : ListenerFn)
    (x : State) : Prop :=
  (String.prefix "cron(" event = false →
   (event, handler) ∈ emitter x ∧ event_hook p event handler ∈ apiHooks x)
  ∧ (∀ expression, valid_cron_key event expression →
     ∃ task, cron_hook p task ∈ apiHooks x
       ∧ cron_tasks x !! task
         = Some {| task_expression := expression; task_handler := handler;
                   task_destroyed := false |})
  ∧ (invalid_cron_key event → invalid_cron_warning event ∈ trace x).

(** [path.resolve(extension.path, extension.entrypoint || '')] *)
Definition entry_path (extension : Extension) : string :=
  path_resolve lib (path extension) (default "" (entrypoint extension)).

(** The mount name of an endpoint extension. *)
Definition route_name (endpoint : Extension) (mod' : EndpointConfig) : string :=
  match mod' with
  | endpoint_function _ => name endpoint
  | endpoint_object id _ => id
  end.

(** The registration function of an endpoint extension. *)
Definition registration_function (mod' : EndpointConfig) : Outcome unit :=
  match mod' with
  | endpoint_function register => register
  | endpoint_object _ handler => handler
  end.

(** The turn of [registerHooks] for one hook extension. *)
Definition hook_turn (w : World) (hook : Extension) : M unit :=
  try_catch (registerHook w hook)
    (λ error',
       logger warn
         (text ("Couldn't register hook " +:+ dquote +:+ name hook +:+ dquote));;
       logger warn (thrown error')).

(** The turn of [registerEndpoints] for one endpoint extension. *)
Definition endpoint_turn (w : World) (endpoint : Extension) : M unit :=
  try_catch (registerEndpoint w endpoint)
    (λ error',
       logger warn
         (text ("Couldn't register endpoint "
                  +:+ dquote +:+ name endpoint +:+ dquote));;
       logger warn (thrown error')).

(** The [try { ... } catch] around discovery. *)
Definition discover (w : World) : M unit :=
  try_catch
    (ensureExtensionDirs w (EXTENSIONS_PATH env)
       (if SERVE_APP env then EXTENSION_TYPES K else API_EXTENSION_TYPES K);;
     found ← getExtensions w;
     modify (set_extensions found))
    (λ err,
       logger warn (text "Couldn't load extensions");;
       logger warn (thrown err)).

(** Discovery and the two registrars: what [initialize] does before it
    bundles. *)
Definition registration (w : World) : M unit :=
  discover w;; registerHooks w;; registerEndpoints w.

(** [if (env.SERVE_APP) { this.appExtensions = await ... }] *)
Definition bundle (w : World) : M unit :=
  if SERVE_APP env then
    (bundles ← generateExtensionBundles w;
     modify (set_appExtensions bundles))
  else mret tt.

(** The end of [initialize]: the list of loaded extensions is logged and the
    manager marked initialized. *)
Definition finish : M unit :=
  loadedExtensions ← listExtensions None;
  (if bool_decide (0 < length loadedExtensions) then
     logger info (text ("Loaded extensions: " +:+ join ", " loadedExtensions))
   else mret tt);;
  modify (set_isInitialized true).

(** What [reload] does before it calls [initialize]. *)
Definition teardown (w : World) : M unit :=
  logger info (text "Reloading extensions");;
  unregisterHooks w;;
  unregisterEndpoints w;;
  (if SERVE_APP env then modify (set_appExtensions ∅) else mret tt);;
  modify (set_isInitialized false).

(** One of the three discovery calls throws. *)
Definition discovery_fails (w : World) : Prop :=
  (∃ e, ensureExtensionDirs_result w (EXTENSIONS_PATH env)
          (if SERVE_APP env then EXTENSION_TYPES K else API_EXTENSION_TYPES K)
        = throws e)
  ∨ (∃ e, getPackageExtensions_result w "."
            (if SERVE_APP env then EXTENSION_PACKAGE_TYPES K
             else API_EXTENSION_PACKAGE_TYPES K) = throws e)
  ∨ (∃ e, getLocalExtensions_result w (EXTENSIONS_PATH env)
            (if SERVE_APP env then EXTENSION_TYPES K else API_EXTENSION_TYPES K)
          = throws e).

(** The error discovery ends with: that of the first of its three calls,
    in the order [initialize] makes them, that throws. *)
Definition discovery_error (w : World) : option Err :=
  match ensureExtensionDirs_result w (EXTENSIONS_PATH env)
          (if SERVE_APP env then EXTENSION_TYPES K else API_EXTENSION_TYPES K)
  with
  | throws e => Some e
  | returns _ =>
      match getPackageExtensions_result w "."
              (if SERVE_APP env then EXTENSION_PACKAGE_TYPES K
               else API_EXTENSION_PACKAGE_TYPES K) with
      | throws e => Some e
      | returns _ =>
          match getLocalExtensions_result w (EXTENSIONS_PATH env)
                  (if SERVE_APP env then EXTENSION_TYPES K
                   else API_EXTENSION_TYPES K) with
          | throws e => Some e
          | returns _ => None
          end
      end
  end.

(** The three calls of discovery, in the order [initialize] makes them. *)
Definition discovery_calls : list Call :=
  [call_ensureExtensionDirs (EXTENSIONS_PATH env)
     (if SERVE_APP env then EXTENSION_TYPES K else API_EXTENSION_TYPES K);
   call_getPackageExtensions "."
     (if SERVE_APP env then EXTENSION_PACKAGE_TYPES K
      else API_EXTENSION_PACKAGE_TYPES K);
   call_getLocalExtensions (EXTENSIONS_PATH env)
     (if SERVE_APP env then EXTENSION_TYPES K else API_EXTENSION_TYPES K)].

(** The state in which [initialize({ schedule })], called on the manager
    [s], comes to bundling: the flag is set, discovery and the two
    registrars have run. *)
Definition before_bundling (w : World) (schedule' : bool) (s : State) : State :=
  state_of (registration w (set_isScheduleHookEnabled schedule' s)).

(** What the bundler answers to the call that the loop of
    [generateExtensionBundles] makes for the type [t], on a manager that
    lists [exts] and with the shared dependencies mapped as [mapping]. *)
Definition bundler_call (w : World) (mapping : list (string * string))
    (exts : list Extension) (t : string) : Outcome string :=
  rollup_result w (generateExtensionsEntry lib t exts)
    (map snd mapping) mapping.

(** What the call of the bundler for the type [t] leaves in the trace. *)
Definition bundler_trace (exts : list Extension) (t : string) : Call :=
  call_rollup (generateExtensionsEntry lib t exts).



(** The subscription an element of [apiHooks] stands for, if any. *)
Definition event_subscription (hook : ApiHook) : option (string * ListenerFn) :=
  match hook with
  | event_hook _ event handler => Some (event, handler)
  | cron_hook _ _ => None
  end.

(** The subscriptions on record, with their multiplicity. *)
Definition recorded_subscriptions (hooks : list ApiHook)
  : list (string * ListenerFn) :=
  omap event_subscription hooks.

(** Everything live is on record: each task that still fires has a cron
    record, and the listeners on the bus are among the recorded
    subscriptions, counted with multiplicity. *)
Definition accounted (s : State) : Prop :=
  (∀ task, active_task s task → ∃ p, cron_hook p task ∈ apiHooks s)
  ∧ emitter s ⊆+ recorded_subscriptions (apiHooks s).

(** The alias [getSharedDepsMapping] gives a shared dependency: the URL of
    the first file of the directory whose name before the dot is the
    dependency with its slashes replaced; none when there is no such file. *)
Definition shared_dep_url (appDir : list string) (dep : string)
  : option string :=
  match find (λ file, String.eqb (replace_slashes dep) (before_dot file))
          appDir with
  | Some depName =>
      if String.eqb depName "" then None
      else Some (admin_url lib (PUBLIC_URL env) depName)
  | None => None
  end.

(** The warning logged for a shared dependency without a file. *)
Definition shared_dep_warning (dep : string) : Call :=
  call_logger warn
    (text ("Couldn't find shared extension dependency "
             +:+ dquote +:+ dep +:+ dquote)).

(** [require.resolve] finds every path. *)
Definition resolves (w : World) : Prop :=
  ∀ p, ∃ file, require_resolve w p = returns file.

(** [hook.path] *)
Definition hook_path (hook : ApiHook) : string :=
  match hook with
  | cron_hook p _ => p
  | event_hook p _ _ => p
  end.

(** [require.resolve] finds the path of every hook and endpoint on record,
    as it does for the path of a module that has been loaded. *)
Definition records_resolve (w : World) (s : State) : Prop :=
  (∀ hook, hook ∈ apiHooks s →
     ∃ file, require_resolve w (hook_path hook) = returns file)
  ∧ (∀ p, p ∈ apiEndpoints s → ∃ file, require_resolve w p = returns file).

(** The handle of every cron record points into the task table. *)
Definition handles_in_table (s : State) : Prop :=
  ∀ p task, cron_hook p task ∈ apiHooks s → task < length (cron_tasks s).

(** The entries of a hook mapping that go to the bus. *)
Definition plain_event (entry : string * ListenerFn) : bool :=
  negb (String.prefix "cron(" entry.1).

(** The entries of a hook mapping that become a task. *)
Definition scheduled_entry (entry : string * ListenerFn) : bool :=
  String.prefix "cron(" entry.1
  && negb (falsy (REGEX_BETWEEN_PARENS K entry.1)
           || negb (validate lib (default "" (REGEX_BETWEEN_PARENS K entry.1)))).

(** The file under which [require] caches the module of an endpoint
    extension, when its path resolves and the module loads. *)
Definition cached_file (w : World) (endpoint : Extension) : option string :=
  match require_resolve w (entry_path endpoint) with
  | returns file =>
      match load_endpoint w file with
      | returns _ => Some file
      | throws _ => None
      end
  | throws _ => None
  end.

(** The module of an extension, when its path resolves and it loads. *)
Definition loaded_endpoint (w : World) (endpoint : Extension)
  : option EndpointConfig :=
  match require_resolve w (entry_path endpoint) with
  | returns file =>
      match load_endpoint w file with
      | returns mod' => Some mod'
      | throws _ => None
      end
  | throws _ => None
  end.

(** The path [registerEndpoint] mounts a sub-router at, if it gets there. *)
Definition mounted_route (w : World) (endpoint : Extension) : option string :=
  mod' ← loaded_endpoint w endpoint;
  Some ("/" +:+ route_name endpoint mod').

(** The path [registerEndpoint] records, if it gets there. *)
Definition recorded_endpoint (w : World) (endpoint : Extension)
  : option string :=
  mod' ← loaded_endpoint w endpoint;
  match registration_function mod' with
  | returns _ => Some (entry_path endpoint)
  | throws _ => None
  end.

End Manager.

(** ** A concrete host

    Values for the imports and for the answers of the collaborators, used to
    run the methods on examples. *)
Module Demo.

(** The text up to the first closing parenthesis. *)
Fixpoint until_close (s : string) : option string :=
  match s with
  | EmptyString => None
  | String c s' =>
      if Ascii.eqb c ")"%char then Some EmptyString
      else String c <$> until_close s'
  end.

(** [s.match(/\(([^)]+)\)/)?.[1]]: the first non-empty run of characters
    other than a closing parenthesis that stands between an opening and a
    closing one. *)
Fixpoint between_parens (s : string) : option string :=
  match s with
  | EmptyString => None
  | String c s' =>
      if Ascii.eqb c "("%char then
        match until_close s' with
        | Some (String a g) => Some (String a g)
        | _ => between_parens s'
        end
      else between_parens s'
  end.

(** A test of names that accepts [directus-extension-] followed by at least
    one character. *)
Definition name_test (n : string) : bool :=
  String.prefix "directus-extension-" n
  && bool_decide (String.length "directus-extension-" < String.length n).

Definition K : Constants :=
  {| API_EXTENSION_PACKAGE_TYPES := ["hook"; "endpoint"; "pack"];
     API_EXTENSION_TYPES := ["hook"; "endpoint"];
     APP_EXTENSION_TYPES := ["interface"; "display"; "layout"; "module"; "panel"];
     APP_SHARED_DEPS := ["@directus/extensions-sdk"; "vue"];
     EXTENSION_NAME_REGEX := name_test;
     EXTENSION_PACKAGE_TYPES :=
       ["interface"; "display"; "layout"; "module"; "panel"; "hook";
        "endpoint"; "pack"];
     EXTENSION_TYPES :=
       ["interface"; "display"; "layout"; "module"; "panel"; "hook";
        "endpoint"];
     REGEX_BETWEEN_PARENS := between_parens |}.

(** A cron validator that knows two schedules. *)
Definition lib : Lib :=
  {| validate := λ c, bool_decide (c ∈ ["* * * * *"; "0 3 * * 1"]);
     path_resolve := λ dir entry, dir +:+ "/" +:+ entry;
     generateExtensionsEntry := λ t exts,
       "export " +:+ t +:+ ": "
         +:+ join "," (map name (filter (λ e, type e = t) exts));
     app_dist := "/app/dist";
     admin_url := λ base file, base +:+ "/admin/" +:+ file |}.

Definition api_env : Env :=
  {| SERVE_APP := false; EXTENSIONS_PATH := "./extensions"; PUBLIC_URL := "" |}.

Definition app_env : Env :=
  {| SERVE_APP := true; EXTENSIONS_PATH := "./extensions"; PUBLIC_URL := "" |}.

(** Two hook extensions and two endpoint extensions.  The first hook maps a
    malformed cron key, a valid cron key and an event; the second maps one
    event.  The registration function of the first endpoint throws. *)
Definition mailer : Extension :=
  {| name := "mailer"; type := "hook"; path := "./extensions/hooks/mailer";
     entrypoint := Some "index.js" |}.

Definition audit : Extension :=
  {| name := "audit"; type := "hook"; path := "./extensions/hooks/audit";
     entrypoint := Some "index.js" |}.

Definition broken : Extension :=
  {| name := "broken"; type := "endpoint";
     path := "./extensions/endpoints/broken"; entrypoint := None |}.

Definition stats : Extension :=
  {| name := "stats"; type := "endpoint";
     path := "./extensions/endpoints/stats"; entrypoint := None |}.

Definition world : World :=
  {| ensureExtensionDirs_result := λ _ _, returns tt;
     getPackageExtensions_result := λ _ _, returns [mailer];
     getLocalExtensions_result := λ _ _, returns [broken; audit; stats];
     require_resolve := λ p, returns p;
     load_hook := λ p,
       if String.eqb p "./extensions/hooks/mailer/index.js" then
         returns (returns [("cron(not-a-schedule)", 1); ("cron(* * * * *)", 2);
                           ("items.create", 3)])
       else returns (returns [("items.delete", 4)]);
     load_endpoint := λ p,
       if String.eqb p "./extensions/endpoints/broken/" then
         returns (endpoint_function (throws "boom"))
       else returns (endpoint_object "statistics" (returns tt));
     readdir_result := λ _, returns ["vue.1a2b.js"; "index.html"];
     rollup_result := λ entry _ _, returns ("/*" +:+ entry +:+ "*/");
     installPackage_result := λ _, true;
     handler_result := λ h, if Nat.eqb h 2 then throws "late" else returns tt |}.

(** The same host when the extension directories cannot be read. *)
Definition world_no_dirs : World :=
  {| ensureExtensionDirs_result := λ _ _, throws "EACCES";
     getPackageExtensions_result := getPackageExtensions_result world;
     getLocalExtensions_result := getLocalExtensions_result world;
     require_resolve := require_resolve world;
     load_hook := load_hook world;
     load_endpoint := load_endpoint world;
     readdir_result := readdir_result world;
     rollup_result := rollup_result world;
     installPackage_result := installPackage_result world;
     handler_result := handler_result world |}.

(** The same host when the bundler fails on the layouts. *)
Definition world_bad_bundle : World :=
  {| ensureExtensionDirs_result := ensureExtensionDirs_result world;
     getPackageExtensions_result := getPackageExtensions_result world;
     getLocalExtensions_result := getLocalExtensions_result world;
     require_resolve := require_resolve world;
     load_hook := load_hook world;
     load_endpoint := load_endpoint world;
     readdir_result := readdir_result world;
     rollup_result := λ entry _ _,
       if String.prefix "export layout" entry then throws "rollup"
       else returns ("/*" +:+ entry +:+ "*/");
     installPackage_result := installPackage_result world;
     handler_result := handler_result world |}.

(** The same host when the bundler fails on one entry only: the one for the
    layouts of a manager that lists no layout. *)
Definition world_bad_entry : World :=
  {| ensureExtensionDirs_result := ensureExtensionDirs_result world;
     getPackageExtensions_result := getPackageExtensions_result world;
     getLocalExtensions_result := getLocalExtensions_result world;
     require_resolve := require_resolve world;
     load_hook := load_hook world;
     load_endpoint := load_endpoint world;
     readdir_result := readdir_result world;
     rollup_result := λ entry _ _,
       if String.eqb entry "export layout: " then throws "rollup"
       else returns ("/*" +:+ entry +:+ "*/");
     installPackage_result := installPackage_result world;
     handler_result := handler_result world |}.


(** The same host when the module of the hook [audit] is not on the disk. *)
Definition world_missing_module : World :=
  {| ensureExtensionDirs_result := ensureExtensionDirs_result world;
     getPackageExtensions_result := getPackageExtensions_result world;
     getLocalExtensions_result := getLocalExtensions_result world;
     require_resolve := λ p,
       if String.eqb p "./extensions/hooks/audit/index.js" then
         throws "MODULE_NOT_FOUND"
       else returns p;
     load_hook := load_hook world;
     load_endpoint := load_endpoint world;
     readdir_result := readdir_result world;
     rollup_result := rollup_result world;
     installPackage_result := installPackage_result world;
     handler_result := handler_result world |}.

(** The same host when the package extensions are found but the local
    extension folders cannot be read. *)
Definition world_no_local : World :=
  {| ensureExtensionDirs_result := ensureExtensionDirs_result world;
     getPackageExtensions_result := getPackageExtensions_result world;
     getLocalExtensions_result := λ _ _, throws "EIO";
     require_resolve := require_resolve world;
     load_hook := load_hook world;
     load_endpoint := load_endpoint world;
     readdir_result := readdir_result world;
     rollup_result := rollup_result world;
     installPackage_result := installPackage_result world;
     handler_result := handler_result world |}.

(** The same host without the hook [mailer]: no cron key is mapped. *)
Definition world_events : World :=
  {| ensureExtensionDirs_result := ensureExtensionDirs_result world;
     getPackageExtensions_result := λ _ _, returns [];
     getLocalExtensions_result := getLocalExtensions_result world;
     require_resolve := require_resolve world;
     load_hook := load_hook world;
     load_endpoint := load_endpoint world;
     readdir_result := readdir_result world;
     rollup_result := rollup_result world;
     installPackage_result := installPackage_result world;
     handler_result := handler_result world |}.

(** Two extensions for the app only. *)
Definition app_only : State :=
  set_extensions
    [{| name := "map"; type := "interface";
        path := "./extensions/interfaces/map"; entrypoint := None |};
     {| name := "kanban"; type := "layout";
        path := "./extensions/layouts/kanban"; entrypoint := None |}]
    new_ExtensionManager.


(** An API-only manager after its first [initialize]. *)
Definition initialized_api : State :=
  run api_env K lib [(world, op_initialize true)] new_ExtensionManager.

(** An API-only manager after its first [initialize] on the host without
    cron keys. *)
Definition initialized_events : State :=
  run api_env K lib [(world_events, op_initialize true)] new_ExtensionManager.

(** An app-serving manager after its first [initialize]. *)
Definition initialized_app : State :=
  run app_env K lib [(world, op_initialize true)] new_ExtensionManager.

(** An app-serving manager whose first [initialize] failed in the bundler. *)
Definition half_initialized : State :=
  run app_env K lib [(world_bad_bundle, op_initialize true)]
    new_ExtensionManager.

End Demo.

(** * Properties *)

(** ** Running computations *)

Lemma bind_run {A B : Type} (m : M A) (f : A → M B) (s : State) :
  (m ≫= f) s =
  match m s with Ok a s' => f a s' | Throw e s' => Throw e s' end.
Proof. reflexivity. Qed.

(** Runs the binds and the elementary updates at the head of a goal. *)
Ltac mrun :=
  repeat progress
    (rewrite ?bind_run; unfold logger, record, modify, get, throw; simpl).

Lemma for_of_app {A : Type} (l1 l2 : list A) (body : A → M unit) (s : State) :
  for_of (l1 ++ l2) body s = (for_of l1 body ;; for_of l2 body) s.
Proof.
  revert s. induction l1 as [|x l1 IH]; intros s; simpl.
  - reflexivity.
  - rewrite !bind_run. destruct (body x s) as [[] s'|e s']; [|reflexivity].
    rewrite IH. reflexivity.
Qed.

Lemma lookup_snoc {A : Type} (l : list A) (x : A) :
  (l ++ [x]) !! length l = Some x.
Proof. rewrite lookup_app_r by lia. rewrite Nat.sub_diag. reflexivity. Qed.

Lemma state_eta (s : State) :
  {| isInitialized := isInitialized s; extensions := extensions s;
     appExtensions := appExtensions s; apiHooks := apiHooks s;
     apiEndpoints := apiEndpoints s; endpointRouter := endpointRouter s;
     isScheduleHookEnabled := isScheduleHookEnabled s; emitter := emitter s;
     cron_tasks := cron_tasks s; require_cache := require_cache s;
     trace := trace s |} = s.
Proof. destruct s; reflexivity. Qed.

(** ** Properties kept along a computation

    [keeps P m]: when [P] holds before [m] it holds after it, whether [m]
    returns or throws. *)
Section Keeps.

Variable P : State → Prop.

Lemma keeps_ret {A : Type} (a : A) : keeps P (mret a).
Proof. intros s Hs. exact Hs. Qed.

Lemma keeps_throw {A : Type} (e : Err) : keeps P (@throw A e).
Proof. intros s Hs. exact Hs. Qed.

Lemma keeps_get : keeps P get.
Proof. intros s Hs. exact Hs. Qed.

Lemma keeps_lift {A : Type} (o : Outcome A) : keeps P (lift o).
Proof. destruct o; [apply keeps_ret | apply keeps_throw]. Qed.

Lemma keeps_modify (f : State → State) :
  (∀ s, P s → P (f s)) → keeps P (modify f).
Proof. intros Hf s Hs. apply Hf, Hs. Qed.

Lemma keeps_bind {A B : Type} (m : M A) (f : A → M B) :
  keeps P m → (∀ a, keeps P (f a)) → keeps P (m ≫= f).
Proof.
  intros Hm Hf s Hs. rewrite bind_run. specialize (Hm s Hs).
  destruct (m s) as [a s'|e s']; simpl in *.
  - apply Hf, Hm.
  - exact Hm.
Qed.

(** A continuation that reads the state sees a state where [P] holds. *)
Lemma keeps_get_bind {B : Type} (f : State → M B) :
  (∀ s, P s → P (state_of (f s s))) → keeps P (get ≫= f).
Proof. intros Hf s Hs. rewrite bind_run. simpl. apply Hf, Hs. Qed.

Lemma keeps_try_catch {A : Type} (body : M A) (handler : Err → M A) :
  keeps P body → (∀ e, keeps P (handler e)) → keeps P (try_catch body handler).
Proof.
  intros Hb Hh s Hs. unfold try_catch. specialize (Hb s Hs).
  destruct (body s) as [a s'|e s']; simpl in *.
  - exact Hb.
  - apply Hh, Hb.
Qed.

Lemma keeps_for_of {A : Type} (l : list A) (body : A → M unit) :
  (∀ x, x ∈ l → keeps P (body x)) → keeps P (for_of l body).
Proof.
  induction l as [|x l IH]; intros Hbody; simpl.
  - apply keeps_ret.
  - apply keeps_bind.
    + apply Hbody. left.
    + intros _. apply IH. intros y Hy. apply Hbody. right. exact Hy.
Qed.

Lemma keeps_if {A : Type} (b : bool) (m1 m2 : M A) :
  keeps P m1 → keeps P m2 → keeps P (if b then m1 else m2).
Proof. destruct b; auto. Qed.

End Keeps.

Section Properties.

Variable env : Env.
Variable K : Constants.
Variable lib : Lib.

(** ** The callback of a cron task *)

Lemma cron_callback_enabled (w : World) (handler : ListenerFn) (s : State) :
  isScheduleHookEnabled s = true →
  cron_callback w handler s = Ok tt (set_trace (trace s ++ fired w handler) s).
Proof.
  intros Hon. unfold cron_callback. rewrite bind_run. simpl. rewrite Hon.
  unfold try_catch, invoke_handler, fired. rewrite bind_run. simpl.
  destruct (handler_result w handler) as [[]|e]; simpl.
  - reflexivity.
  - unfold logger, record, modify, set_trace. simpl.
    rewrite <- app_assoc. reflexivity.
Qed.

Lemma cron_callback_disabled (w : World) (handler : ListenerFn) (s : State) :
  isScheduleHookEnabled s = false → cron_callback w handler s = Ok tt s.
Proof.
  intros Hoff. unfold cron_callback. rewrite bind_run. simpl. rewrite Hoff.
  reflexivity.
Qed.

Lemma fire_active (w : World) (task : ScheduledTask) (t : CronTask) (s : State) :
  cron_tasks s !! task = Some t → task_destroyed t = false →
  fire w task s = cron_callback w (task_handler t) s.
Proof.
  intros Ht Hd. unfold fire. rewrite bind_run. simpl. rewrite Ht, Hd.
  reflexivity.
Qed.

Lemma registerHook_entry_cron (hookPath event expression : string)
    (handler : ListenerFn) (s : State) :
  valid_cron_key K lib event expression →
  registerHook_entry K lib hookPath (event, handler) s =
  Ok tt (set_apiHooks (apiHooks s ++ [cron_hook hookPath (length (cron_tasks s))])
           (set_cron_tasks
              (cron_tasks s ++ [{| task_expression := expression;
                                   task_handler := handler;
                                   task_destroyed := false |}]) s)).
Proof.
  intros (Hpre & Hre & Hne & Hval). unfold registerHook_entry.
  rewrite Hpre, Hre. simpl. rewrite Hval.
  apply String.eqb_neq in Hne. rewrite Hne. simpl. reflexivity.
Qed.

Lemma registerHook_entry_invalid (hookPath event : string)
    (handler : ListenerFn) (s : State) :
  invalid_cron_key K lib event →
  registerHook_entry K lib hookPath (event, handler) s =
  Ok tt (set_trace
           (trace s ++
              [call_logger warn
                 (text ("Couldn't register cron hook. Provided cron is invalid: "
                          +:+ show_cron (REGEX_BETWEEN_PARENS K event)))]) s).
Proof.
  intros (Hpre & Hbad). unfold registerHook_entry.
  rewrite Hpre, Hbad. reflexivity.
Qed.

Lemma registerHook_entry_event (hookPath event : string)
    (handler : ListenerFn) (s : State) :
  String.prefix "cron(" event = false →
  registerHook_entry K lib hookPath (event, handler) s =
  Ok tt (set_apiHooks (apiHooks s ++ [event_hook hookPath event handler])
           (set_emitter (emitter s ++ [(event, handler)]) s)).
Proof.
  intros Hpre. unfold registerHook_entry. rewrite Hpre. reflexivity.
Qed.

(** C7.  A valid cron entry makes [registerHook] schedule a task and record
    it.  Whenever that task is fired afterwards, its callback reads the
    schedule flag first: with the flag off nothing happens and the task stays
    in the table; with the flag on the handler is called once, and an error
    it throws is logged by the callback.  In every case the callback returns
    to the scheduler; it never throws. *)
Theorem cron_task_callback_guarded (hookPath event expression : string)
    (handler : ListenerFn) (s : State) :
  valid_cron_key K lib event expression →
  ∃ s1 task,
    registerHook_entry K lib hookPath (event, handler) s = Ok tt s1
    ∧ task = length (cron_tasks s)
    ∧ cron_tasks s1 !! task
      = Some {| task_expression := expression; task_handler := handler;
                task_destroyed := false |}
    ∧ apiHooks s1 = apiHooks s ++ [cron_hook hookPath task]
    ∧ ∀ (w : World) (s2 : State),
        cron_tasks s2 !! task = cron_tasks s1 !! task →
        (isScheduleHookEnabled s2 = false → fire w task s2 = Ok tt s2)
        ∧ (isScheduleHookEnabled s2 = true →
           fire w task s2 = Ok tt (set_trace (trace s2 ++ fired w handler) s2))
        ∧ (∀ e s3, fire w task s2 ≠ Throw e s3)
        ∧ cron_tasks (state_of (fire w task s2)) = cron_tasks s2.
Proof.
  intros Hvalid.
  eexists _, _. split; [apply (registerHook_entry_cron _ _ _ _ _ Hvalid)|].
  split; [reflexivity|]. simpl.
  assert (Hlook : (cron_tasks s ++
            [{| task_expression := expression; task_handler := handler;
                task_destroyed := false |}]) !! length (cron_tasks s)
          = Some {| task_expression := expression; task_handler := handler;
                    task_destroyed := false |}).
  { rewrite lookup_app_r by lia. rewrite Nat.sub_diag. reflexivity. }
  split; [exact Hlook|]. split; [reflexivity|].
  intros w s2 Hsame. rewrite Hlook in Hsame.
  rewrite (fire_active w _ _ s2 Hsame eq_refl). simpl.
  destruct (isScheduleHookEnabled s2) eqn:Hflag.
  - rewrite (cron_callback_enabled w handler s2 Hflag).
    repeat split; try discriminate; reflexivity.
  - rewrite (cron_callback_disabled w handler s2 Hflag).
    repeat split; try discriminate; reflexivity.
Qed.

(** ** [initialize] on an initialized manager *)

Lemma initialize_initialized (w : World) (schedule' : bool) (s : State) :
  isInitialized s = true →
  initialize env K lib w schedule' s
  = Ok tt (set_isScheduleHookEnabled schedule' s).
Proof.
  intros Hinit. unfold initialize. rewrite bind_run. simpl.
  rewrite bind_run. simpl. rewrite Hinit. reflexivity.
Qed.

(** C2, as amended.  On an initialized manager [initialize(options)] returns
    at its guard: it calls no collaborator (the trace is unchanged, so there
    is no discovery, no registration and no bundling) and leaves every field
    as it was, except the schedule flag, which takes the value of
    [options.schedule]; when that is the value the flag already had, the
    state is unchanged. *)
Theorem initialize_again_only_sets_flag (w : World) (schedule' : bool)
    (s : State) :
  isInitialized s = true →
  ∃ s', initialize env K lib w schedule' s = Ok tt s'
    ∧ isScheduleHookEnabled s' = schedule'
    ∧ trace s' = trace s
    ∧ extensions s' = extensions s
    ∧ apiHooks s' = apiHooks s
    ∧ apiEndpoints s' = apiEndpoints s
    ∧ endpointRouter s' = endpointRouter s
    ∧ appExtensions s' = appExtensions s
    ∧ emitter s' = emitter s
    ∧ cron_tasks s' = cron_tasks s
    ∧ require_cache s' = require_cache s
    ∧ isInitialized s' = true
    ∧ (isScheduleHookEnabled s = schedule' → s' = s).
Proof.
  intros Hinit. eexists. split; [apply initialize_initialized, Hinit|].
  simpl. repeat split; try reflexivity; try assumption.
  intros <-. unfold set_isScheduleHookEnabled. apply state_eta.
Qed.

(** C10.  On an initialized manager [initialize({ schedule: b })] sets the
    schedule flag to [b] and changes nothing else.  From then on a task that
    is still scheduled runs its handler when it fires if [b] is true and
    does nothing if [b] is false, without any reload. *)
Theorem initialize_again_switches_schedule (w : World) (b : bool) (s : State) :
  isInitialized s = true →
  initialize env K lib w b s = Ok tt (set_isScheduleHookEnabled b s)
  ∧ ∀ (w' : World) (task : ScheduledTask) (t : CronTask),
      cron_tasks s !! task = Some t → task_destroyed t = false →
      fire w' task (set_isScheduleHookEnabled b s)
      = Ok tt (if b then
                 set_trace (trace s ++ fired w' (task_handler t))
                   (set_isScheduleHookEnabled b s)
               else set_isScheduleHookEnabled b s).
Proof.
  intros Hinit. split; [apply initialize_initialized, Hinit|].
  intros w' task t Ht Hd.
  rewrite (fire_active w' task t) by assumption.
  destruct b.
  - rewrite cron_callback_enabled by reflexivity. reflexivity.
  - rewrite cron_callback_disabled by reflexivity. reflexivity.
Qed.

(** ** Computations that cannot throw *)

Lemma total_ret {A : Type} (a : A) : total (mret a).
Proof. intros s. eexists _, _. reflexivity. Qed.

Lemma total_get : total get.
Proof. intros s. eexists _, _. reflexivity. Qed.

Lemma total_modify (f : State → State) : total (modify f).
Proof. intros s. eexists _, _. reflexivity. Qed.

Lemma total_bind {A B : Type} (m : M A) (f : A → M B) :
  total m → (∀ a, total (f a)) → total (m ≫= f).
Proof.
  intros Hm Hf s. rewrite bind_run.
  destruct (Hm s) as (a & s' & ->). apply Hf.
Qed.

Lemma total_try_catch {A : Type} (body : M A) (handler : Err → M A) :
  (∀ e, total (handler e)) → total (try_catch body handler).
Proof.
  intros Hh s. unfold try_catch.
  destruct (body s) as [a s'|e s']; [eexists _, _; reflexivity | apply Hh].
Qed.

Lemma total_for_of {A : Type} (l : list A) (body : A → M unit) :
  (∀ x, total (body x)) → total (for_of l body).
Proof.
  intros Hbody. induction l as [|x l IH]; simpl.
  - apply total_ret.
  - apply total_bind; [apply Hbody | intros _; exact IH].
Qed.

Lemma total_logger (l : Level) (a : LogArg) : total (logger l a).
Proof. apply total_modify. Qed.

Lemma total_unit (m : M unit) (s : State) :
  total m → m s = Ok tt (state_of (m s)).
Proof. intros Hm. destruct (Hm s) as ([] & s' & ->). reflexivity. Qed.

Lemma registerHook_entry_total (hookPath : string) (entry : string * ListenerFn) :
  total (registerHook_entry K lib hookPath entry).
Proof.
  destruct entry as [event handler]. intros s. unfold registerHook_entry.
  destruct (String.prefix "cron(" event).
  - destruct (falsy _ || negb _); eexists _, _; reflexivity.
  - eexists _, _; reflexivity.
Qed.

Lemma registerHooks_total (w : World) : total (registerHooks K lib w).
Proof.
  unfold registerHooks. apply total_bind; [apply total_get|]. intros s.
  apply total_for_of. intros hook. apply total_try_catch. intros e.
  apply total_bind; [apply total_logger | intros _; apply total_logger].
Qed.

Lemma registerEndpoints_total (w : World) : total (registerEndpoints lib w).
Proof.
  unfold registerEndpoints. apply total_bind; [apply total_get|]. intros s.
  apply total_for_of. intros endpoint. apply total_try_catch. intros e.
  apply total_bind; [apply total_logger | intros _; apply total_logger].
Qed.

(** ** What each method may touch

    A property is kept by a method as soon as it tolerates the elementary
    updates the method makes. *)
Section Frames.

Variable P : State → Prop.

Hypothesis P_record : ∀ s c, P s → P (set_trace (trace s ++ [c]) s).

Lemma keeps_record (c : Call) : keeps P (record c).
Proof. apply keeps_modify. intros s Hs. apply P_record, Hs. Qed.

Lemma keeps_logger (l : Level) (a : LogArg) : keeps P (logger l a).
Proof. apply keeps_record. Qed.

Lemma keeps_require {A : Type} (w : World) (load : World → string → Outcome A)
    (p : string) :
  (∀ s f, P s → P (set_require_cache ({[f]} ∪ require_cache s) s)) →
  keeps P (require w load p).
Proof.
  intros Hc. unfold require. apply keeps_bind; [apply keeps_lift|]. intros f.
  apply keeps_bind; [apply keeps_lift|]. intros m.
  apply keeps_bind; [|intros _; apply keeps_ret].
  apply keeps_modify. intros s Hs. apply Hc, Hs.
Qed.

Lemma keeps_registerHooks (w : World) :
  (∀ s f, P s → P (set_require_cache ({[f]} ∪ require_cache s) s)) →
  (∀ p entry, keeps P (registerHook_entry K lib p entry)) →
  keeps P (registerHooks K lib w).
Proof.
  intros Hc He. unfold registerHooks. apply keeps_bind; [apply keeps_get|].
  intros s. apply keeps_for_of. intros hook _. apply keeps_try_catch.
  - unfold registerHook. apply keeps_bind; [apply keeps_require, Hc|].
    intros register. apply keeps_bind; [apply keeps_record|]. intros _.
    apply keeps_bind; [apply keeps_lift|]. intros events.
    apply keeps_for_of. intros entry _. apply He.
  - intros e. apply keeps_bind; [apply keeps_logger|]. intros _.
    apply keeps_logger.
Qed.

Lemma keeps_registerEndpoints (w : World) :
  (∀ s f, P s → P (set_require_cache ({[f]} ∪ require_cache s) s)) →
  (∀ s r, P s → P (set_endpointRouter (endpointRouter s ++ [r]) s)) →
  (∀ s p, P s → P (set_apiEndpoints (apiEndpoints s ++ [p]) s)) →
  keeps P (registerEndpoints lib w).
Proof.
  intros Hc Hr Hp. unfold registerEndpoints.
  apply keeps_bind; [apply keeps_get|].
  intros s. apply keeps_for_of. intros endpoint _. apply keeps_try_catch.
  - unfold registerEndpoint. apply keeps_bind; [apply keeps_require, Hc|].
    intros mod'. apply keeps_bind.
    { apply keeps_modify. intros s' Hs'. apply Hr, Hs'. }
    intros _. apply keeps_bind; [apply keeps_record|]. intros _.
    apply keeps_bind; [apply keeps_lift|]. intros _.
    apply keeps_modify. intros s' Hs'. apply Hp, Hs'.
  - intros e. apply keeps_bind; [apply keeps_logger|]. intros _.
    apply keeps_logger.
Qed.

Lemma keeps_getSharedDepsMapping_loop (appDir deps : list string)
    (depsMapping : list (string * string)) :
  keeps P (getSharedDepsMapping_loop env lib appDir deps depsMapping).
Proof.
  revert depsMapping. induction deps as [|dep deps IH]; intros depsMapping.
  - apply keeps_ret.
  - simpl. destruct (find _ appDir) as [depName|].
    + destruct (String.eqb depName "").
      * apply keeps_bind; [apply keeps_logger | intros _; apply IH].
      * apply IH.
    + apply keeps_bind; [apply keeps_logger | intros _; apply IH].
Qed.

Lemma keeps_generateExtensionBundles (w : World) :
  keeps P (generateExtensionBundles env K lib w).
Proof.
  unfold generateExtensionBundles. apply keeps_bind.
  { unfold getSharedDepsMapping. apply keeps_bind.
    - unfold readdir. apply keeps_bind; [apply keeps_record|].
      intros _. apply keeps_lift.
    - intros appDir. apply keeps_getSharedDepsMapping_loop. }
  intros mapping. generalize (∅ : gmap string string).
  induction (APP_EXTENSION_TYPES K) as [|t types IH]; intros bundles.
  - apply keeps_ret.
  - simpl. apply keeps_bind; [apply keeps_get|]. intros s.
    apply keeps_bind.
    + unfold rollup. apply keeps_bind; [apply keeps_record|].
      intros _. apply keeps_lift.
    + intros code. apply IH.
Qed.

End Frames.

(** ** The steps of [initialize] *)

Lemma initialize_uninitialized (w : World) (schedule' : bool) (s : State) :
  isInitialized s = false →
  initialize env K lib w schedule' s
  = (registration env K lib w;; bundle env K lib w;; finish)
      (set_isScheduleHookEnabled schedule' s).
Proof.
  intros Hinit. unfold initialize. rewrite bind_run. simpl.
  rewrite bind_run. simpl. rewrite Hinit.
  unfold registration, bundle, finish, discover. rewrite !bind_run.
  destruct (try_catch _ _ _) as [[] s1|e s1]; [|reflexivity].
  rewrite !bind_run.
  destruct (registerHooks K lib w s1) as [[] s2|e s2]; [|reflexivity].
  reflexivity.
Qed.

Lemma discover_total (w : World) : total (discover env K w).
Proof.
  apply total_try_catch. intros e.
  apply total_bind; [apply total_logger | intros _; apply total_logger].
Qed.

Lemma registration_total (w : World) : total (registration env K lib w).
Proof.
  unfold registration. apply total_bind; [apply discover_total|]. intros _.
  apply total_bind; [apply registerHooks_total|]. intros _.
  apply registerEndpoints_total.
Qed.

Lemma finish_total : total finish.
Proof.
  unfold finish. apply total_bind.
  { intros s. unfold listExtensions. rewrite bind_run. simpl.
    eexists _, _. reflexivity. }
  intros loaded. apply total_bind; [|intros _; apply total_modify].
  destruct (bool_decide _); [apply total_logger | apply total_ret].
Qed.

(** Discovery that succeeds stores the package extensions followed by the
    local ones. *)
Lemma discover_found (w : World) (pkg loc : list Extension) (s : State) :
  ensureExtensionDirs_result w (EXTENSIONS_PATH env)
    (if SERVE_APP env then EXTENSION_TYPES K else API_EXTENSION_TYPES K)
  = returns tt →
  getPackageExtensions_result w "."
    (if SERVE_APP env then EXTENSION_PACKAGE_TYPES K
     else API_EXTENSION_PACKAGE_TYPES K) = returns pkg →
  getLocalExtensions_result w (EXTENSIONS_PATH env)
    (if SERVE_APP env then EXTENSION_TYPES K else API_EXTENSION_TYPES K)
  = returns loc →
  ∃ s', discover env K w s = Ok tt s' ∧ extensions s' = pkg ++ loc.
Proof.
  intros Hdirs Hpkg Hloc. unfold discover, try_catch.
  unfold ensureExtensionDirs, getExtensions, getPackageExtensions,
    getLocalExtensions.
  rewrite !bind_run. simpl. rewrite Hdirs. simpl.
  rewrite !bind_run. simpl. rewrite Hpkg. simpl.
  rewrite !bind_run. simpl. rewrite Hloc. simpl.
  eexists. split; reflexivity.
Qed.

Lemma finish_extensions (s : State) :
  extensions (state_of (finish s)) = extensions s.
Proof.
  unfold finish, listExtensions. rewrite !bind_run. simpl.
  destruct (bool_decide _); reflexivity.
Qed.

Lemma listExtensions_run (type' : option string) (s : State) :
  listExtensions type' s
  = Ok (match type' with
        | None => map name (extensions s)
        | Some t => map name (filter (λ e, type e = t) (extensions s))
        end) s.
Proof. destruct type'; reflexivity. Qed.

(** C8.  When discovery succeeds with package extensions [pkg] and local
    extensions [loc] and [initialize] completes, [listExtensions()] returns
    the names of [pkg] followed by those of [loc], and [listExtensions(t)]
    the names of those among them whose type is [t]; neither call changes
    the state. *)
Theorem listExtensions_after_initialize (w : World) (schedule' : bool)
    (pkg loc : list Extension) (s s' : State) :
  isInitialized s = false →
  ensureExtensionDirs_result w (EXTENSIONS_PATH env)
    (if SERVE_APP env then EXTENSION_TYPES K else API_EXTENSION_TYPES K)
  = returns tt →
  getPackageExtensions_result w "."
    (if SERVE_APP env then EXTENSION_PACKAGE_TYPES K
     else API_EXTENSION_PACKAGE_TYPES K) = returns pkg →
  getLocalExtensions_result w (EXTENSIONS_PATH env)
    (if SERVE_APP env then EXTENSION_TYPES K else API_EXTENSION_TYPES K)
  = returns loc →
  initialize env K lib w schedule' s = Ok tt s' →
  listExtensions None s' = Ok (map name (pkg ++ loc)) s'
  ∧ ∀ t, listExtensions (Some t) s'
         = Ok (map name (filter (λ e, type e = t) (pkg ++ loc))) s'.
Proof.
  intros Hinit Hdirs Hpkg Hloc Hrun.
  assert (Hext : extensions s' = pkg ++ loc).
  { rewrite (initialize_uninitialized _ _ _ Hinit) in Hrun.
    unfold registration in Hrun. rewrite !bind_run in Hrun.
    destruct (discover_found w pkg loc (set_isScheduleHookEnabled schedule' s)
                Hdirs Hpkg Hloc) as (s1 & Hdisc & Hs1).
    rewrite Hdisc in Hrun. rewrite !bind_run in Hrun.
    pose (P := λ x : State, extensions x = pkg ++ loc).
    assert (Hrec : ∀ x c, P x → P (set_trace (trace x ++ [c]) x))
      by (intros x c Hx; exact Hx).
    pose proof (keeps_registerHooks P Hrec w) as Hhooks.
    specialize (Hhooks (λ x f Hx, Hx)).
    assert (Hentry : ∀ p entry, keeps P (registerHook_entry K lib p entry)).
    { intros p [event handler] x Hx. unfold registerHook_entry.
      destruct (String.prefix "cron(" event);
        [destruct (falsy _ || negb _)|]; exact Hx. }
    specialize (Hhooks Hentry s1 Hs1).
    destruct (registerHooks K lib w s1) as [[] s2|e s2]; [|discriminate].
    pose proof (keeps_registerEndpoints P Hrec w (λ x f Hx, Hx)
                  (λ x r Hx, Hx) (λ x p Hx, Hx) s2 Hhooks) as Hends.
    destruct (registerEndpoints lib w s2) as [[] s3|e s3]; [|discriminate].
    simpl in Hends. rewrite !bind_run in Hrun.
    assert (Hb : keeps P (bundle env K lib w)).
    { unfold bundle. apply keeps_if; [|apply keeps_ret].
      apply keeps_bind; [apply keeps_generateExtensionBundles, Hrec|].
      intros bundles. apply keeps_modify. intros x Hx. exact Hx. }
    specialize (Hb s3 Hends).
    destruct (bundle env K lib w s3) as [[] s4|e s4]; [|discriminate].
    simpl in Hb. pose proof (finish_extensions s4) as Hfin.
    rewrite Hrun in Hfin. simpl in Hfin. rewrite Hfin. exact Hb. }
  split; [|intros t]; rewrite listExtensions_run, Hext; reflexivity.
Qed.

Lemma keeps_registerHook_entry (P : State → Prop) :
  (∀ s c, P s → P (set_trace (trace s ++ [c]) s)) →
  (∀ s sub, P s → P (set_emitter (emitter s ++ [sub]) s)) →
  (∀ s t, P s → P (set_cron_tasks (cron_tasks s ++ [t]) s)) →
  (∀ s h, P s → P (set_apiHooks (apiHooks s ++ [h]) s)) →
  ∀ p entry, keeps P (registerHook_entry K lib p entry).
Proof.
  intros Hrec Hon Hsched Hpush p [event handler] s Hs.
  unfold registerHook_entry.
  destruct (String.prefix "cron(" event).
  - destruct (falsy _ || negb _); simpl.
    + apply Hrec, Hs.
    + apply (Hpush (set_cron_tasks _ s)), Hsched, Hs.
  - simpl. apply (Hpush (set_emitter _ s)), Hon, Hs.
Qed.

Lemma keeps_discover (P : State → Prop) (w : World) :
  (∀ s c, P s → P (set_trace (trace s ++ [c]) s)) →
  (∀ s v, P s → P (set_extensions v s)) →
  keeps P (discover env K w).
Proof.
  intros Hrec Hext. unfold discover. apply keeps_try_catch.
  - apply keeps_bind.
    { unfold ensureExtensionDirs.
      apply keeps_bind; [apply keeps_record, Hrec|].
      intros _. apply keeps_lift. }
    intros _. apply keeps_bind.
    { unfold getExtensions, getPackageExtensions, getLocalExtensions.
      apply keeps_bind.
      { apply keeps_bind; [apply keeps_record, Hrec|].
        intros _. apply keeps_lift. }
      intros pkg. apply keeps_bind.
      { apply keeps_bind; [apply keeps_record, Hrec|].
        intros _. apply keeps_lift. }
      intros loc. apply keeps_ret. }
    intros found. apply keeps_modify. intros s Hs. apply Hext, Hs.
  - intros e. apply keeps_bind; [apply keeps_logger, Hrec|].
    intros _. apply keeps_logger, Hrec.
Qed.

(** The fields the registrars and discovery never write. *)
Lemma registration_frame (w : World) (s : State) :
  isInitialized (state_of (registration env K lib w s)) = isInitialized s
  ∧ appExtensions (state_of (registration env K lib w s)) = appExtensions s
  ∧ isScheduleHookEnabled (state_of (registration env K lib w s))
    = isScheduleHookEnabled s.
Proof.
  pose (P := λ x : State,
          isInitialized x = isInitialized s
          ∧ appExtensions x = appExtensions s
          ∧ isScheduleHookEnabled x = isScheduleHookEnabled s).
  assert (Hrec : ∀ x c, P x → P (set_trace (trace x ++ [c]) x))
    by (intros x c Hx; exact Hx).
  assert (Hk : keeps P (registration env K lib w)).
  { unfold registration.
    apply keeps_bind; [apply keeps_discover; [exact Hrec|]|].
    { intros x v Hx. exact Hx. }
    intros _. apply keeps_bind.
    { apply keeps_registerHooks; [exact Hrec| |].
      - intros x f Hx. exact Hx.
      - apply keeps_registerHook_entry; try exact Hrec;
          intros x v Hx; exact Hx. }
    intros _. apply keeps_registerEndpoints; try exact Hrec;
      intros x v Hx; exact Hx. }
  apply (Hk s). repeat split.
Qed.

(** ** Bundling *)

(** The loop of [generateExtensionBundles] stops at the first type for which
    the bundler throws: the types before it have been bundled, those after
    it are not tried, and the error is the one of that call. *)
Lemma generateExtensionBundles_loop_aborts (w : World)
    (mapping : list (string * string)) (types : list string)
    (bundles : gmap string string) (t : string) (e : Err) (s : State) :
  t ∈ types →
  bundler_call lib w mapping (extensions s) t = throws e →
  ∃ before t' after e',
    types = before ++ t' :: after
    ∧ (∀ u, u ∈ before →
         ∃ code, bundler_call lib w mapping (extensions s) u = returns code)
    ∧ bundler_call lib w mapping (extensions s) t' = throws e'
    ∧ generateExtensionBundles_loop lib w mapping types bundles s
      = Throw e'
          (set_trace
             (trace s
                ++ map (bundler_trace lib (extensions s)) (before ++ [t']))
             s).
Proof.
  intros Hin Hfail. revert bundles s Hfail.
  induction types as [|u types IH]; intros bundles s Hfail.
  - inversion Hin.
  - simpl. rewrite bind_run. simpl. unfold rollup. rewrite !bind_run. simpl.
    destruct (rollup_result w (generateExtensionsEntry lib u (extensions s))
                (map snd mapping) mapping) as [code|e1] eqn:Hroll; simpl.
    + apply elem_of_cons in Hin as [->|Hin].
      { unfold bundler_call in Hfail. congruence. }
      set (s1 := set_trace _ s).
      destruct (IH Hin (<[u:=code]> bundles) s1 Hfail)
        as (before & t' & after & e' & -> & Hbefore & Ht' & Hrun).
      exists (u :: before), t', after, e'. split; [reflexivity|].
      split; [|split; [exact Ht'|]].
      * intros v Hv. apply elem_of_cons in Hv as [->|Hv].
        -- exists code. exact Hroll.
        -- apply Hbefore, Hv.
      * rewrite Hrun. unfold s1, set_trace, bundler_trace. simpl.
        rewrite <- app_assoc. reflexivity.
    + exists [], u, types, e1. split; [reflexivity|].
      split; [intros v Hv; inversion Hv|]. split; [exact Hroll|].
      reflexivity.
Qed.

(** [getSharedDepsMapping] changes nothing but the trace. *)
Lemma getSharedDepsMapping_frame (w : World) (deps : list string) (s : State) :
  state_of (getSharedDepsMapping env lib w deps s)
  = set_trace (trace (state_of (getSharedDepsMapping env lib w deps s))) s.
Proof.
  pose (P := λ x : State, x = set_trace (trace x) s).
  assert (Hrec : ∀ x c, P x → P (set_trace (trace x ++ [c]) x)).
  { intros x c Hx. unfold P in *. rewrite Hx at 2. reflexivity. }
  assert (Hk : keeps P (getSharedDepsMapping env lib w deps)).
  { unfold getSharedDepsMapping. apply keeps_bind.
    - unfold readdir. apply keeps_bind; [apply keeps_record, Hrec|].
      intros _. apply keeps_lift.
    - intros appDir. apply keeps_getSharedDepsMapping_loop, Hrec. }
  apply (Hk s). unfold P. destruct s; reflexivity.
Qed.

(** C5.  In app-serving mode, let [initialize] run on a manager that is not
    initialized and come to bundling with the shared dependencies mapped.
    When the bundler throws in the call made for one of the UI extension
    types, the loop stops at the first type for which it does: the bundler
    is not called for the types after it, and its error propagates out of
    [initialize].  No bundle map is stored, not even for the types already
    bundled, and the manager is not marked initialized, while the hooks and
    endpoints registered before bundling stay as the registrars left
    them. *)
Theorem bundler_failure_aborts_initialize (w : World) (schedule' : bool)
    (t : string) (e : Err) (mapping : list (string * string))
    (mapped s : State) :
  SERVE_APP env = true →
  isInitialized s = false →
  getSharedDepsMapping env lib w (APP_SHARED_DEPS K)
    (before_bundling env K lib w schedule' s) = Ok mapping mapped →
  t ∈ APP_EXTENSION_TYPES K →
  bundler_call lib w mapping
    (extensions (before_bundling env K lib w schedule' s)) t = throws e →
  ∃ before t' after e' s',
    APP_EXTENSION_TYPES K = before ++ t' :: after
    ∧ (∀ u, u ∈ before →
         ∃ code,
           bundler_call lib w mapping
             (extensions (before_bundling env K lib w schedule' s)) u
           = returns code)
    ∧ bundler_call lib w mapping
        (extensions (before_bundling env K lib w schedule' s)) t'
      = throws e'
    ∧ initialize env K lib w schedule' s = Throw e' s'
    ∧ trace s'
      = trace mapped
          ++ map (bundler_trace lib
                    (extensions (before_bundling env K lib w schedule' s)))
               (before ++ [t'])
    ∧ isInitialized s' = false
    ∧ appExtensions s' = appExtensions s
    ∧ ∃ registered,
        registration env K lib w (set_isScheduleHookEnabled schedule' s)
        = Ok tt registered
        ∧ extensions s' = extensions registered
        ∧ apiHooks s' = apiHooks registered
        ∧ apiEndpoints s' = apiEndpoints registered
        ∧ endpointRouter s' = endpointRouter registered
        ∧ emitter s' = emitter registered
        ∧ cron_tasks s' = cron_tasks registered
        ∧ require_cache s' = require_cache registered.
Proof.
  intros Happ Hinit Hmap Hin Hfail.
  rewrite (initialize_uninitialized _ _ _ Hinit).
  pose proof (total_unit _ (set_isScheduleHookEnabled schedule' s)
                (registration_total w)) as Hreg.
  destruct (registration_frame w (set_isScheduleHookEnabled schedule' s))
    as (Hi & Ha & _).
  fold (before_bundling env K lib w schedule' s) in Hreg, Hi, Ha.
  set (registered := before_bundling env K lib w schedule' s) in *.
  pose proof (getSharedDepsMapping_frame w (APP_SHARED_DEPS K) registered)
    as Hframe.
  rewrite Hmap in Hframe. simpl in Hframe.
  assert (Hext : extensions mapped = extensions registered)
    by (rewrite Hframe; reflexivity).
  rewrite <- Hext in Hfail.
  destruct (generateExtensionBundles_loop_aborts w mapping
              (APP_EXTENSION_TYPES K) ∅ t e mapped Hin Hfail)
    as (before & t' & after & e' & Htypes & Hbefore & Ht' & Hloop).
  rewrite Hext in Hbefore, Ht', Hloop.
  exists before, t', after, e'. eexists.
  split; [exact Htypes|]. split; [exact Hbefore|]. split; [exact Ht'|].
  split.
  { rewrite bind_run, Hreg, bind_run. unfold bundle, generateExtensionBundles.
    rewrite Happ, !bind_run, Hmap, Hloop. reflexivity. }
  simpl. split; [reflexivity|]. rewrite Hframe. simpl.
  split; [rewrite Hi; exact Hinit|]. split; [exact Ha|].
  exists registered. repeat split. exact Hreg.
Qed.

(** ** Discovery that fails *)

(** Failed discovery is caught: the calls made up to the one that throws
    and the two warnings, the second with the error of that call, are all
    that happens; no field is written, so the extension list is the one from
    before. *)
Lemma discover_failed (w : World) (s : State) :
  discovery_fails env K w →
  ∃ e calls,
    discovery_error env K w = Some e
    ∧ calls `prefix_of` discovery_calls env K
    ∧ discover env K w s
      = Ok tt (set_trace
                 (trace s ++ calls ++
                    [call_logger warn (text "Couldn't load extensions");
                     call_logger warn (thrown e)]) s).
Proof.
  intros Hfail. unfold discover, try_catch, ensureExtensionDirs.
  unfold discovery_error, discovery_calls.
  rewrite !bind_run. simpl.
  destruct (ensureExtensionDirs_result w _ _) as [[]|e] eqn:Hdirs; simpl.
  - unfold getExtensions, getPackageExtensions.
    rewrite !bind_run. simpl.
    destruct (getPackageExtensions_result w _ _) as [pkg|e] eqn:Hpkg; simpl.
    + unfold getLocalExtensions. rewrite !bind_run. simpl.
      destruct (getLocalExtensions_result w _ _) as [loc|e] eqn:Hloc; simpl.
      * destruct Hfail as [[e He]|[[e He]|[e He]]]; congruence.
      * exists e. eexists [_; _; _]. split; [reflexivity|].
        split; [reflexivity|]. mrun. unfold set_trace. simpl.
        rewrite <- !app_assoc. reflexivity.
    + exists e. eexists [_; _]. split; [reflexivity|].
      split; [eexists [_]; reflexivity|]. mrun. unfold set_trace. simpl.
      rewrite <- !app_assoc. reflexivity.
  - exists e. eexists [_]. split; [reflexivity|].
    split; [eexists [_; _]; reflexivity|]. mrun. unfold set_trace. simpl.
    rewrite <- !app_assoc. reflexivity.
Qed.




Lemma finish_initialized (s : State) :
  isInitialized (state_of (finish s)) = true.
Proof.
  unfold finish, listExtensions. rewrite !bind_run. simpl.
  destruct (bool_decide _); reflexivity.
Qed.



(** ** [install] *)

(** C4, as amended.  A name that fails the pattern makes [install] return
    false at once: the installer is not called and nothing changes.  For a
    name that passes, the installer is called once; if it reports failure,
    [install] returns false and does not reload; if it reports success,
    [install] calls [reload] once and returns true when that reload
    completes, and throws what the reload throws otherwise. *)
Theorem install_outcomes (w : World) (name' : string) (s : State) :
  (EXTENSION_NAME_REGEX K name' = false →
   install env K lib w name' s = Ok false s)
  ∧ (EXTENSION_NAME_REGEX K name' = true →
     installPackage_result w name' = false →
     install env K lib w name' s
     = Ok false (set_trace (trace s ++ [call_installPackage name']) s))
  ∧ (EXTENSION_NAME_REGEX K name' = true →
     installPackage_result w name' = true →
     install env K lib w name' s
     = match reload env K lib w
               (set_trace (trace s ++ [call_installPackage name']) s) with
       | Ok _ s' => Ok true s'
       | Throw e s' => Throw e s'
       end).
Proof.
  unfold install, installPackage. repeat split.
  - intros ->. reflexivity.
  - intros -> Hinst. simpl. rewrite !bind_run. simpl. rewrite Hinst.
    reflexivity.
  - intros -> Hinst. simpl. rewrite !bind_run. simpl. rewrite Hinst. simpl.
    rewrite bind_run. reflexivity.
Qed.

(** ** The registrars, one extension at a time *)

(** A loop whose turns cannot throw reaches each of its elements; what the
    turn of [x] establishes and the other turns keep holds at the end. *)
Lemma for_of_elem {A : Type} (P : State → Prop) (body : A → M unit)
    (l : list A) (x : A) (s : State) :
  (∀ y, total (body y)) →
  (∀ y, keeps P (body y)) →
  (∀ s0, P (state_of (body x s0))) →
  x ∈ l →
  P (state_of (for_of l body s)).
Proof.
  intros Htot Hkeep Hx Hin.
  destruct (list_elem_of_split l x Hin) as (l1 & l2 & ->).
  rewrite for_of_app, bind_run.
  destruct (total_for_of l1 body Htot s) as ([] & s1 & ->).
  simpl. rewrite bind_run. specialize (Hx s1).
  destruct (Htot x s1) as ([] & s2 & Hb). rewrite Hb in Hx |- *.
  apply (keeps_for_of P l2 body); [intros y _; apply Hkeep | exact Hx].
Qed.

Lemma registerHooks_run (w : World) (s : State) :
  registerHooks K lib w s
  = for_of (filter (λ e, type e = "hook") (extensions s)) (hook_turn K lib w) s.
Proof. reflexivity. Qed.

Lemma registerEndpoints_run (w : World) (s : State) :
  registerEndpoints lib w s
  = for_of (filter (λ e, type e = "endpoint") (extensions s))
      (endpoint_turn lib w) s.
Proof. reflexivity. Qed.

Lemma hook_turn_total (w : World) (hook : Extension) :
  total (hook_turn K lib w hook).
Proof.
  apply total_try_catch. intros e.
  apply total_bind; [apply total_logger | intros _; apply total_logger].
Qed.

Lemma endpoint_turn_total (w : World) (endpoint : Extension) :
  total (endpoint_turn lib w endpoint).
Proof.
  apply total_try_catch. intros e.
  apply total_bind; [apply total_logger | intros _; apply total_logger].
Qed.

Section Turns.

Variable P : State → Prop.

Hypothesis P_record : ∀ s c, P s → P (set_trace (trace s ++ [c]) s).
Hypothesis P_cache :
  ∀ s f, P s → P (set_require_cache ({[f]} ∪ require_cache s) s).

Lemma keeps_hook_turn (w : World) (hook : Extension) :
  (∀ p entry, keeps P (registerHook_entry K lib p entry)) →
  keeps P (hook_turn K lib w hook).
Proof.
  intros He. apply keeps_try_catch.
  - unfold registerHook.
    apply keeps_bind; [apply keeps_require; assumption|].
    intros register. apply keeps_bind; [apply keeps_record, P_record|].
    intros _. apply keeps_bind; [apply keeps_lift|]. intros events.
    apply keeps_for_of. intros entry _. apply He.
  - intros e. apply keeps_bind; [apply keeps_logger, P_record|]. intros _.
    apply keeps_logger, P_record.
Qed.

Lemma keeps_endpoint_turn (w : World) (endpoint : Extension) :
  (∀ s r, P s → P (set_endpointRouter (endpointRouter s ++ [r]) s)) →
  (∀ s p, P s → P (set_apiEndpoints (apiEndpoints s ++ [p]) s)) →
  keeps P (endpoint_turn lib w endpoint).
Proof.
  intros Hr Hp. apply keeps_try_catch.
  - unfold registerEndpoint.
    apply keeps_bind; [apply keeps_require; assumption|].
    intros mod'. apply keeps_bind.
    { apply keeps_modify. intros s' Hs'. apply Hr, Hs'. }
    intros _. apply keeps_bind; [apply keeps_record, P_record|]. intros _.
    apply keeps_bind; [apply keeps_lift|]. intros _.
    apply keeps_modify. intros s' Hs'. apply Hp, Hs'.
  - intros e. apply keeps_bind; [apply keeps_logger, P_record|]. intros _.
    apply keeps_logger, P_record.
Qed.

End Turns.

Lemma require_loaded {A : Type} (w : World) (load : World → string → Outcome A)
    (p file : string) (m : A) (s : State) :
  require_resolve w p = returns file → load w file = returns m →
  require w load p s
  = Ok m (set_require_cache ({[file]} ∪ require_cache s) s).
Proof.
  intros Hres Hload. unfold require. rewrite bind_run, Hres. simpl.
  rewrite bind_run, Hload. reflexivity.
Qed.

(** C9.  For an endpoint extension whose module loads, [registerEndpoints]
    mounts a sub-router at [/<name of the extension>] when the default export
    is a function and at [/<id>] when it is an object, and records the path
    of the extension when its registration function returns.  This holds
    whatever the registration functions of the other endpoint extensions do:
    [registerEndpoints] never throws. *)
Theorem endpoints_mounted (w : World) (endpoint : Extension) (file : string)
    (mod' : EndpointConfig) (s : State) :
  endpoint ∈ extensions s →
  type endpoint = "endpoint" →
  require_resolve w (entry_path lib endpoint) = returns file →
  load_endpoint w file = returns mod' →
  ∃ s',
    registerEndpoints lib w s = Ok tt s'
    ∧ "/" +:+ route_name endpoint mod' ∈ endpointRouter s'
    ∧ (registration_function mod' = returns tt →
       entry_path lib endpoint ∈ apiEndpoints s').
Proof.
  intros Hin Htype Hres Hload.
  exists (state_of (registerEndpoints lib w s)).
  split; [apply total_unit, registerEndpoints_total|].
  rewrite registerEndpoints_run.
  pose (P := λ x : State,
          "/" +:+ route_name endpoint mod' ∈ endpointRouter x
          ∧ (registration_function mod' = returns tt →
             entry_path lib endpoint ∈ apiEndpoints x)).
  apply (for_of_elem P (endpoint_turn lib w) _ endpoint).
  - apply endpoint_turn_total.
  - intros y. apply keeps_endpoint_turn.
    + intros x c Hx. exact Hx.
    + intros x f Hx. exact Hx.
    + intros x r [Hroute Hrec]. split; [|exact Hrec].
      simpl. apply elem_of_app. left. exact Hroute.
    + intros x p [Hroute Hrec]. split; [exact Hroute|].
      intros Hret. simpl. apply elem_of_app. left. apply Hrec, Hret.
  - intros s0. unfold endpoint_turn, try_catch, registerEndpoint.
    fold (entry_path lib endpoint). rewrite bind_run.
    rewrite (require_loaded w load_endpoint _ file mod' s0 Hres Hload).
    fold (route_name endpoint mod') (registration_function mod').
    mrun.
    destruct (registration_function mod') as [[]|e]; mrun.
    + split; [|intros _]; apply elem_of_app; right; left.
    + split; [|discriminate]. apply elem_of_app; right; left.
  - apply list_elem_of_filter. split; [exact Htype | exact Hin].
Qed.

(** ** Entries of a hook mapping *)

Lemma valid_not_invalid (event expression : string) :
  valid_cron_key K lib event expression → invalid_cron_key K lib event → False.
Proof.
  intros (_ & Hre & Hne & Hval) (_ & Hbad).
  rewrite Hre in Hbad. simpl in Hbad. rewrite Hval in Hbad.
  apply String.eqb_neq in Hne. rewrite Hne in Hbad. discriminate.
Qed.

Lemma entry_registered_established (p event : string) (handler : ListenerFn)
    (s : State) :
  entry_registered K lib p event handler
    (state_of (registerHook_entry K lib p (event, handler) s)).
Proof.
  destruct (String.prefix "cron(" event) eqn:Hpre.
  - destruct (falsy (REGEX_BETWEEN_PARENS K event)
              || negb (validate lib (default "" (REGEX_BETWEEN_PARENS K event))))
      eqn:Hbad.
    + assert (Hinv : invalid_cron_key K lib event) by (split; assumption).
      rewrite (registerHook_entry_invalid _ _ _ _ Hinv). simpl.
      split; [congruence|]. split.
      * intros expression Hvalid.
        destruct (valid_not_invalid _ _ Hvalid Hinv).
      * intros _. apply elem_of_app. right. left.
    + apply orb_false_iff in Hbad as [Hfalsy Hval].
      apply negb_false_iff in Hval.
      destruct (REGEX_BETWEEN_PARENS K event) as [c|] eqn:Hre;
        [|discriminate].
      simpl in Hfalsy, Hval. apply String.eqb_neq in Hfalsy.
      assert (Hvalid : valid_cron_key K lib event c) by (repeat split; assumption).
      rewrite (registerHook_entry_cron _ _ _ _ _ Hvalid). simpl.
      split; [congruence|]. split.
      * intros expression (_ & Hre' & _). rewrite Hre in Hre'.
        injection Hre' as <-. exists (length (cron_tasks s)). split.
        -- apply elem_of_app. right. left.
        -- exact (lookup_snoc _ _).
      * intros (_ & Hbad). rewrite Hre in Hbad. simpl in Hbad.
        rewrite Hval in Hbad. apply String.eqb_neq in Hfalsy.
        rewrite Hfalsy in Hbad. discriminate.
  - rewrite (registerHook_entry_event _ _ _ _ Hpre). simpl.
    split; [|split].
    + intros _. split; apply elem_of_app; right; left.
    + intros expression (Hpre' & _). congruence.
    + intros (Hpre' & _). congruence.
Qed.

Lemma entry_registered_kept (p event : string) (handler : ListenerFn)
    (p' : string) (entry : string * ListenerFn) :
  keeps (entry_registered K lib p event handler)
    (registerHook_entry K lib p' entry).
Proof.
  apply keeps_registerHook_entry.
  - intros s c (He & Hc & Hw). repeat split; try apply He; try assumption.
    intros Hinv. simpl. apply elem_of_app. left. apply Hw, Hinv.
  - intros s sub (He & Hc & Hw). repeat split; try assumption.
    + simpl. apply elem_of_app. left. apply He. assumption.
    + apply He. assumption.
  - intros s t (He & Hc & Hw). repeat split; try apply He; try assumption.
    intros expression Hvalid. destruct (Hc expression Hvalid) as (task & ? & Ht).
    exists task. split; [assumption|]. simpl.
    apply lookup_app_l_Some, Ht.
  - intros s h (He & Hc & Hw). repeat split; try assumption.
    + apply He. assumption.
    + simpl. apply elem_of_app. left. apply He. assumption.
    + intros expression Hvalid.
      destruct (Hc expression Hvalid) as (task & Hin & Ht).
      exists task. split; [|exact Ht]. simpl. apply elem_of_app. left.
      exact Hin.
Qed.

(** Every entry of the mapping of a hook extension whose module loads and
    whose registration function returns is dealt with by [registerHooks]. *)
Lemma registerHooks_entry (w : World) (hook : Extension) (file : string)
    (entries : list (string * ListenerFn)) (event : string)
    (handler : ListenerFn) (s : State) :
  hook ∈ extensions s →
  type hook = "hook" →
  require_resolve w (entry_path lib hook) = returns file →
  load_hook w file = returns (returns entries) →
  (event, handler) ∈ entries →
  entry_registered K lib (entry_path lib hook) event handler
    (state_of (registerHooks K lib w s)).
Proof.
  intros Hin Htype Hres Hload Hentry. rewrite registerHooks_run.
  assert (Hrec : ∀ x c,
            entry_registered K lib (entry_path lib hook) event handler x →
            entry_registered K lib (entry_path lib hook) event handler
              (set_trace (trace x ++ [c]) x)).
  { intros x c (He & Hc & Hw). repeat split; try apply He; try assumption.
    intros Hinv. simpl. apply elem_of_app. left. apply Hw, Hinv. }
  apply (for_of_elem _ (hook_turn K lib w) _ hook).
  - apply hook_turn_total.
  - intros y. apply keeps_hook_turn.
    + exact Hrec.
    + intros x f Hx. exact Hx.
    + apply entry_registered_kept.
  - intros s0. unfold hook_turn, try_catch, registerHook.
    fold (entry_path lib hook). rewrite bind_run.
    rewrite (require_loaded w load_hook _ file _ s0 Hres Hload).
    mrun. set (s1 := set_trace _ _).
    pose proof (for_of_elem
                  (entry_registered K lib (entry_path lib hook) event handler)
                  (registerHook_entry K lib (entry_path lib hook)) entries
                  (event, handler) s1
                  (registerHook_entry_total (entry_path lib hook))
                  (entry_registered_kept _ _ _ (entry_path lib hook))
                  (entry_registered_established _ _ _) Hentry) as Hdone.
    destruct (for_of entries _ s1) as [[] s2|e s2]; [exact Hdone|].
    simpl in Hdone. mrun. apply Hrec, Hrec, Hdone.
  - apply list_elem_of_filter. split; [exact Htype | exact Hin].
Qed.

(** C6.  When the mapping of a hook extension has an invalid cron key, the
    turn of that entry only logs a warning: it schedules no task, records
    nothing and does not throw.  [registerHooks] never throws, and every
    entry of every hook extension whose mapping could be obtained is
    registered: the other entries of that extension, and those of the other
    hook extensions. *)
Theorem invalid_cron_entry_skipped (w : World) (hook : Extension)
    (file : string) (entries : list (string * ListenerFn)) (bad : string)
    (handler : ListenerFn) (s : State) :
  hook ∈ extensions s →
  type hook = "hook" →
  require_resolve w (entry_path lib hook) = returns file →
  load_hook w file = returns (returns entries) →
  (bad, handler) ∈ entries →
  invalid_cron_key K lib bad →
  ∃ s',
    registerHooks K lib w s = Ok tt s'
    ∧ (∀ x, registerHook_entry K lib (entry_path lib hook) (bad, handler) x
            = Ok tt (set_trace (trace x ++ [invalid_cron_warning K bad]) x))
    ∧ invalid_cron_warning K bad ∈ trace s'
    ∧ ∀ hook' file' entries' event handler',
        hook' ∈ extensions s →
        type hook' = "hook" →
        require_resolve w (entry_path lib hook') = returns file' →
        load_hook w file' = returns (returns entries') →
        (event, handler') ∈ entries' →
        entry_registered K lib (entry_path lib hook') event handler' s'.
Proof.
  intros Hin Htype Hres Hload Hentry Hbad.
  exists (state_of (registerHooks K lib w s)).
  split; [apply total_unit, registerHooks_total|].
  split; [intros x; apply registerHook_entry_invalid, Hbad|].
  split.
  - apply (registerHooks_entry w hook file entries bad handler s); assumption.
  - intros hook' file' entries' event handler' Hin' Htype' Hres' Hload' Hentry'.
    apply (registerHooks_entry w hook' file' entries'); assumption.
Qed.

(** ** Everything live is on record

    The bus and the scheduler start empty and only the manager adds to them,
    so every running task and every listener is matched by an element of
    [apiHooks]. *)

Lemma accounted_new : accounted new_ExtensionManager.
Proof.
  split.
  - intros task (t & Ht & _). discriminate.
  - reflexivity.
Qed.

Lemma remove_first_submseteq_self {A : Type} `{EqDecision A} (x : A)
    (l : list A) :
  remove_first x l ⊆+ l.
Proof.
  induction l as [|y l IH]; simpl.
  - reflexivity.
  - destruct (decide (x = y)).
    + apply submseteq_cons. reflexivity.
    + apply submseteq_skip, IH.
Qed.

Lemma remove_first_elem {A : Type} `{EqDecision A} (x : A) (l : list A) :
  x ∈ l → l ≡ₚ x :: remove_first x l.
Proof.
  induction l as [|y l IH]; intros Hin.
  - inversion Hin.
  - simpl. destruct (decide (x = y)) as [->|Hne].
    + reflexivity.
    + apply elem_of_cons in Hin as [Heq|Hin]; [contradiction|].
      rewrite (IH Hin) at 1. apply Permutation_swap.
Qed.

Lemma remove_first_submseteq {A : Type} `{EqDecision A} (x : A)
    (l k : list A) :
  l ⊆+ x :: k → remove_first x l ⊆+ k.
Proof.
  intros Hsub. apply submseteq_cons_r in Hsub as [Hsub|(l' & Hperm & Hsub)].
  - etrans; [apply remove_first_submseteq_self | exact Hsub].
  - assert (Hin : x ∈ l) by (rewrite Hperm; left).
    rewrite (remove_first_elem x l Hin) in Hperm.
    apply (inj (x ::.)) in Hperm. rewrite Hperm. exact Hsub.
Qed.

(** Unsubscribing every recorded listener empties a bus that held nothing
    else. *)
Lemma remove_all_recorded {A : Type} `{EqDecision A} (subs em : list A) :
  em ⊆+ subs → foldl (λ em sub, remove_first sub em) em subs = [].
Proof.
  revert em. induction subs as [|x subs IH]; intros em Hsub; simpl.
  - apply submseteq_nil_r, Hsub.
  - apply IH, remove_first_submseteq, Hsub.
Qed.

Lemma registerHook_entry_accounted (p : string) (entry : string * ListenerFn) :
  keeps accounted (registerHook_entry K lib p entry).
Proof.
  destruct entry as [event handler]. intros s [Htasks Hbus].
  unfold registerHook_entry.
  destruct (String.prefix "cron(" event).
  - destruct (falsy _ || negb _); simpl.
    + split; assumption.
    + split; simpl.
      * intros task (t & Ht & Hd). simpl in Ht.
        destruct (decide (task < length (cron_tasks s))) as [Hlt|Hge].
        -- rewrite lookup_app_l in Ht by exact Hlt.
           destruct (Htasks task) as [p' Hp']; [exists t; split; assumption|].
           exists p'. apply elem_of_app. left. exact Hp'.
        -- apply lookup_lt_Some in Ht as Hlen. rewrite length_app in Hlen.
           simpl in Hlen. assert (task = length (cron_tasks s)) as -> by lia.
           exists p. apply elem_of_app. right. left.
      * unfold recorded_subscriptions. rewrite omap_app. simpl.
        rewrite app_nil_r. exact Hbus.
  - simpl. split; simpl.
    + intros task Hact. destruct (Htasks task Hact) as [p' Hp'].
      exists p'. apply elem_of_app. left. exact Hp'.
    + unfold recorded_subscriptions. rewrite omap_app. simpl.
      apply submseteq_app; [exact Hbus | reflexivity].
Qed.

Lemma active_after_destroy (task task' : ScheduledTask) (s : State) :
  active_task (state_of (destroy task s)) task' →
  active_task s task' ∧ task' ≠ task.
Proof.
  intros (t & Ht & Hd). unfold destroy, modify in Ht. simpl in Ht.
  destruct (decide (task = task')) as [<-|Hne].
  - rewrite list_lookup_alter_eq in Ht.
    apply fmap_Some in Ht as (t0 & _ & ->). discriminate.
  - rewrite list_lookup_alter_ne in Ht by exact Hne.
    split; [exists t; split; assumption | congruence].
Qed.

Lemma delete_require_cache_run (w : World) (p : string) (s : State) :
  (∃ file, delete_require_cache w p s
           = Ok tt (set_require_cache (require_cache s ∖ {[file]}) s))
  ∨ (∃ e, delete_require_cache w p s = Throw e s).
Proof.
  unfold delete_require_cache. rewrite bind_run.
  destruct (require_resolve w p) as [file|e]; simpl.
  - left. exists file. reflexivity.
  - right. exists e. reflexivity.
Qed.

(** One turn of [unregisterHooks], whether or not the eviction of the module
    throws: the task of a cron record is destroyed, one listener of an event
    record is removed, and the records are as before. *)
Lemma unregisterHook_effect (w : World) (hook : ApiHook) (s : State) :
  let s' := state_of (unregisterHook w hook s) in
  apiHooks s' = apiHooks s
  ∧ (∀ task, active_task s' task →
       active_task s task ∧ ∀ p, hook ≠ cron_hook p task)
  ∧ emitter s'
    = match event_subscription hook with
      | Some sub => remove_first sub (emitter s)
      | None => emitter s
      end.
Proof.
  destruct hook as [p task|p event handler]; simpl; rewrite bind_run; simpl.
  - set (s1 := set_cron_tasks _ s).
    assert (Hact : ∀ task', active_task s1 task' →
              active_task s task' ∧ ∀ p', cron_hook p task ≠ cron_hook p' task').
    { intros task' Hact.
      destruct (active_after_destroy task task' s Hact) as [Ha Hne].
      split; [exact Ha | congruence]. }
    destruct (delete_require_cache_run w p s1) as [[file ->]|[e ->]];
      simpl; repeat split; try apply Hact; assumption.
  - set (s1 := set_emitter _ s).
    destruct (delete_require_cache_run w p s1) as [[file ->]|[e ->]];
      simpl; repeat split; try assumption; discriminate.
Qed.

Lemma unregisterHook_accounted (w : World) (hook : ApiHook) :
  keeps accounted (unregisterHook w hook).
Proof.
  intros s [Htasks Hbus].
  destruct (unregisterHook_effect w hook s) as (Hhooks & Hact & Hem).
  split.
  - intros task Ht. rewrite Hhooks. apply Htasks, Hact, Ht.
  - rewrite Hhooks, Hem. destruct (event_subscription hook); [|exact Hbus].
    etrans; [apply remove_first_submseteq_self | exact Hbus].
Qed.

(** The loop of [unregisterHooks], when it runs to its end. *)
Lemma unregister_loop_done (w : World) (l : list ApiHook) (s s' : State) :
  for_of l (unregisterHook w) s = Ok tt s' →
  apiHooks s' = apiHooks s
  ∧ (∀ task, active_task s' task →
       active_task s task ∧ ∀ p, cron_hook p task ∉ l)
  ∧ emitter s'
    = foldl (λ em sub, remove_first sub em) (emitter s)
        (recorded_subscriptions l).
Proof.
  revert s. induction l as [|hook l IH]; intros s Hrun; simpl in Hrun.
  - injection Hrun as <-. repeat split; try assumption.
    intros p Hin. inversion Hin.
  - rewrite bind_run in Hrun.
    destruct (unregisterHook_effect w hook s) as (Hhooks & Hact & Hem).
    destruct (unregisterHook w hook s) as [[] s1|e s1]; [|discriminate].
    simpl in Hhooks, Hact, Hem.
    destruct (IH s1 Hrun) as (Hhooks' & Hact' & Hem').
    split; [congruence|]. split.
    + intros task Ht. destruct (Hact' task Ht) as [Ht1 Hnot].
      destruct (Hact task Ht1) as [Ht0 Hne]. split; [exact Ht0|].
      intros p Hin. apply elem_of_cons in Hin as [Heq|Hin].
      * apply (Hne p). symmetry. exact Heq.
      * apply (Hnot p Hin).
    + rewrite Hem', Hem. unfold recorded_subscriptions. simpl.
      destruct (event_subscription hook); reflexivity.
Qed.

(** [unregisterHooks] that returns has destroyed every recorded task and
    removed every recorded listener; on a state where everything live is
    recorded, nothing is left. *)
Lemma unregisterHooks_done (w : World) (s s' : State) :
  unregisterHooks w s = Ok tt s' →
  apiHooks s' = []
  ∧ (∀ p task, cron_hook p task ∈ apiHooks s → ¬ active_task s' task)
  ∧ emitter s'
    = foldl (λ em sub, remove_first sub em) (emitter s)
        (recorded_subscriptions (apiHooks s))
  ∧ (accounted s → (∀ task, ¬ active_task s' task) ∧ emitter s' = []).
Proof.
  unfold unregisterHooks. rewrite bind_run. simpl. rewrite bind_run.
  destruct (for_of (apiHooks s) (unregisterHook w) s) as [[] s1|e s1] eqn:Hloop;
    [|discriminate].
  simpl. intros Hrun. injection Hrun as <-.
  destruct (unregister_loop_done w _ s s1 Hloop) as (Hhooks & Hact & Hem).
  split; [reflexivity|]. split.
  { intros p task Hin Ht. destruct (Hact task Ht) as [_ Hnot].
    apply (Hnot p Hin). }
  split; [exact Hem|].
  intros [Htasks Hbus]. split.
  - intros task Ht. destruct (Hact task Ht) as [Ht0 Hnot].
    destruct (Htasks task Ht0) as [p Hp]. apply (Hnot p Hp).
  - simpl. rewrite Hem. apply remove_all_recorded, Hbus.
Qed.

Lemma unregisterHooks_accounted (w : World) : keeps accounted (unregisterHooks w).
Proof.
  intros s Hs.
  destruct (unregisterHooks w s) as [[] s'|e s'] eqn:Hrun.
  - destruct (unregisterHooks_done w s s' Hrun) as (Hhooks & _ & _ & Hdone).
    destruct (Hdone Hs) as [Hnone Hem]. simpl. split.
    + intros task Ht. destruct (Hnone task Ht).
    + rewrite Hem. apply submseteq_nil_l.
  - unfold unregisterHooks in Hrun. rewrite bind_run in Hrun. simpl in Hrun.
    rewrite bind_run in Hrun.
    pose proof (keeps_for_of accounted (apiHooks s) (unregisterHook w)
                  (λ hook _, unregisterHook_accounted w hook) s Hs) as Hk.
    destruct (for_of (apiHooks s) (unregisterHook w) s) as [[] s1|e1 s1];
      [discriminate|].
    injection Hrun as _ <-. exact Hk.
Qed.

Lemma accounted_record (s : State) (c : Call) :
  accounted s → accounted (set_trace (trace s ++ [c]) s).
Proof. intros Hs. exact Hs. Qed.

Lemma initialize_accounted (w : World) (schedule' : bool) :
  keeps accounted (initialize env K lib w schedule').
Proof.
  unfold initialize. apply keeps_bind.
  { apply keeps_modify. intros s Hs. exact Hs. }
  intros _. apply keeps_bind; [apply keeps_get|]. intros s0.
  apply keeps_if; [apply keeps_ret|].
  apply keeps_bind.
  { apply (keeps_discover accounted w accounted_record).
    intros s v Hs. exact Hs. }
  intros _. apply keeps_bind.
  { apply keeps_registerHooks; [exact accounted_record| |].
    - intros s f Hs. exact Hs.
    - apply registerHook_entry_accounted. }
  intros _. apply keeps_bind.
  { apply keeps_registerEndpoints; [exact accounted_record|..];
      intros s v Hs; exact Hs. }
  intros _. apply keeps_bind.
  { apply keeps_if; [|apply keeps_ret].
    apply keeps_bind;
      [apply keeps_generateExtensionBundles, accounted_record|].
    intros bundles. apply keeps_modify. intros s Hs. exact Hs. }
  intros _. apply keeps_bind.
  { unfold listExtensions. apply keeps_bind; [apply keeps_get|].
    intros s. apply keeps_ret. }
  intros loaded. apply keeps_bind.
  { apply keeps_if; [apply keeps_logger, accounted_record | apply keeps_ret]. }
  intros _. apply keeps_modify. intros s Hs. exact Hs.
Qed.

Lemma unregisterEndpoints_accounted (w : World) :
  keeps accounted (unregisterEndpoints w).
Proof.
  unfold unregisterEndpoints. apply keeps_bind; [apply keeps_get|]. intros s0.
  apply keeps_bind.
  { apply keeps_for_of. intros p _. unfold delete_require_cache.
    apply keeps_bind; [apply keeps_lift|]. intros file.
    apply keeps_modify. intros s Hs. exact Hs. }
  intros _. apply keeps_bind; apply keeps_modify || intros _.
  - intros s Hs. exact Hs.
  - apply keeps_modify. intros s Hs. exact Hs.
Qed.

Lemma reload_initialized (w : World) (s : State) :
  isInitialized s = true →
  reload env K lib w s = (teardown env w;; initialize env K lib w true) s.
Proof.
  intros Hinit. unfold reload, teardown. rewrite bind_run. simpl.
  rewrite Hinit. simpl. rewrite !bind_run. simpl.
  set (s0 := set_trace _ s). rewrite !bind_run.
  destruct (unregisterHooks w s0) as [[] s1|e s1]; [|reflexivity].
  rewrite !bind_run.
  destruct (unregisterEndpoints w s1) as [[] s2|e s2]; [|reflexivity].
  rewrite !bind_run.
  destruct (SERVE_APP env); reflexivity.
Qed.

Lemma reload_uninitialized (w : World) (s : State) :
  isInitialized s = false → reload env K lib w s = Ok tt s.
Proof.
  intros Hinit. unfold reload. rewrite bind_run. simpl. rewrite Hinit.
  reflexivity.
Qed.

Lemma teardown_accounted (w : World) : keeps accounted (teardown env w).
Proof.
  unfold teardown.
  apply keeps_bind; [apply keeps_logger, accounted_record|]. intros _.
  apply keeps_bind; [apply unregisterHooks_accounted|]. intros _.
  apply keeps_bind; [apply unregisterEndpoints_accounted|]. intros _.
  apply keeps_bind.
  { apply keeps_if; [|apply keeps_ret].
    apply keeps_modify. intros s Hs. exact Hs. }
  intros _. apply keeps_modify. intros s Hs. exact Hs.
Qed.

Lemma reload_accounted (w : World) : keeps accounted (reload env K lib w).
Proof.
  intros s Hs. destruct (isInitialized s) eqn:Hinit.
  - rewrite (reload_initialized w s Hinit).
    apply (keeps_bind accounted (teardown env w)
             (λ _, initialize env K lib w true)).
    + apply teardown_accounted.
    + intros _. apply initialize_accounted.
    + exact Hs.
  - rewrite (reload_uninitialized w s Hinit). exact Hs.
Qed.

Lemma install_accounted (w : World) (name' : string) :
  keeps accounted (install env K lib w name').
Proof.
  unfold install. apply keeps_if; [apply keeps_ret|].
  apply keeps_bind.
  { unfold installPackage.
    apply keeps_bind; [apply keeps_record, accounted_record|].
    intros _. apply keeps_ret. }
  intros installed. apply keeps_if; [apply keeps_ret|].
  apply keeps_bind; [apply reload_accounted | intros _; apply keeps_ret].
Qed.

Lemma fire_accounted (w : World) (task : ScheduledTask) :
  keeps accounted (fire w task).
Proof.
  unfold fire. apply keeps_bind; [apply keeps_get|]. intros s0.
  destruct (cron_tasks s0 !! task) as [t|]; [|apply keeps_ret].
  apply keeps_if; [apply keeps_ret|].
  unfold cron_callback. apply keeps_bind; [apply keeps_get|]. intros s1.
  apply keeps_if; [|apply keeps_ret].
  apply keeps_try_catch.
  - unfold invoke_handler.
    apply keeps_bind; [apply keeps_record, accounted_record|].
    intros _. apply keeps_lift.
  - intros e. apply keeps_logger, accounted_record.
Qed.

Lemma run_op_accounted (w : World) (op : Op) (s : State) :
  accounted s → accounted (run_op env K lib w op s).
Proof.
  intros Hs. destruct op as [b| |n|t|task]; simpl.
  - apply initialize_accounted, Hs.
  - apply reload_accounted, Hs.
  - apply install_accounted, Hs.
  - rewrite listExtensions_run. exact Hs.
  - apply fire_accounted, Hs.
Qed.

(** In every state the host can reach, all that is live is on record. *)
Lemma run_accounted (ops : list (World * Op)) (s : State) :
  accounted s → accounted (run env K lib ops s).
Proof.
  revert s. induction ops as [|[w op] ops IH]; intros s Hs; simpl.
  - exact Hs.
  - apply IH, run_op_accounted, Hs.
Qed.

Lemma teardown_done (w : World) (s mid : State) :
  teardown env w s = Ok tt mid →
  apiHooks mid = []
  ∧ apiEndpoints mid = []
  ∧ endpointRouter mid = []
  ∧ isInitialized mid = false
  ∧ (∀ p task, cron_hook p task ∈ apiHooks s → ¬ active_task mid task)
  ∧ emitter mid
    = foldl (λ em sub, remove_first sub em) (emitter s)
        (recorded_subscriptions (apiHooks s))
  ∧ (accounted s → (∀ task, ¬ active_task mid task) ∧ emitter mid = []).
Proof.
  unfold teardown. rewrite bind_run. simpl. rewrite bind_run.
  set (s0 := set_trace _ s).
  destruct (unregisterHooks w s0) as [[] s1|e s1] eqn:Hhooks; [|discriminate].
  destruct (unregisterHooks_done w s0 s1 Hhooks) as (Hnil & Hrec & Hem & Hall).
  rewrite bind_run. unfold unregisterEndpoints at 1. rewrite bind_run. simpl.
  rewrite bind_run.
  pose (P := λ x : State,
          apiHooks x = apiHooks s1 ∧ cron_tasks x = cron_tasks s1
          ∧ emitter x = emitter s1).
  assert (Hk : keeps P (for_of (apiEndpoints s1) (delete_require_cache w))).
  { apply keeps_for_of. intros p _. unfold delete_require_cache.
    apply keeps_bind; [apply keeps_lift|]. intros file.
    apply keeps_modify. intros x Hx. exact Hx. }
  specialize (Hk s1 (conj eq_refl (conj eq_refl eq_refl))).
  destruct (for_of (apiEndpoints s1) (delete_require_cache w) s1)
    as [[] s2|e s2]; [|discriminate].
  simpl in Hk. destruct Hk as (Hh2 & Hc2 & He2). mrun.
  assert (Hact : ∀ x task, cron_tasks x = cron_tasks s1 →
            active_task x task → active_task s1 task).
  { intros x task Hx (t & Ht & Hd). exists t. rewrite <- Hx. split; assumption. }
  subst s0. simpl in Hrec, Hem.
  assert (Hgoal : ∀ m,
            apiHooks m = apiHooks s2 → cron_tasks m = cron_tasks s2 →
            emitter m = emitter s2 →
            apiHooks m = []
            ∧ (∀ p task, cron_hook p task ∈ apiHooks s → ¬ active_task m task)
            ∧ emitter m
              = foldl (λ em sub, remove_first sub em) (emitter s)
                  (recorded_subscriptions (apiHooks s))
            ∧ (accounted s →
               (∀ task, ¬ active_task m task) ∧ emitter m = [])).
  { intros m Hh Hc He. split; [congruence|]. split; [|split; [congruence|]].
    - intros p task Hin Ht. apply (Hrec p task Hin), (Hact m task); [|exact Ht].
      congruence.
    - intros Hs. destruct (Hall Hs) as [Hnone Hempty]. split; [|congruence].
      intros task Ht. apply (Hnone task), (Hact m task); [|exact Ht].
      congruence. }
  destruct (SERVE_APP env); simpl; intros Hrun; injection Hrun as <-;
    (destruct (Hgoal _ eq_refl eq_refl eq_refl) as (H1 & H2 & H3 & H4));
    repeat split; try assumption; apply H4; assumption.
Qed.

(** C1, as amended.  Take any sequence of operations on a new manager, and
    let [reload] then run on a manager that is initialized.  If that reload
    completes, its teardown has completed before [initialize] was called:
    at that point every recorded task is destroyed and no task at all is
    still scheduled, every recorded listener has been removed, one
    [emitter.off] per record, and the bus is empty, and the lists of hooks
    and endpoints and the router are empty; [initialize] registers from
    there. *)
Theorem reload_leaves_nothing_stale (ops : list (World * Op)) (w : World)
    (s' : State) :
  isInitialized (run env K lib ops new_ExtensionManager) = true →
  reload env K lib w (run env K lib ops new_ExtensionManager) = Ok tt s' →
  ∃ mid,
    teardown env w (run env K lib ops new_ExtensionManager) = Ok tt mid
    ∧ initialize env K lib w true mid = Ok tt s'
    ∧ (∀ p task,
         cron_hook p task ∈ apiHooks (run env K lib ops new_ExtensionManager) →
         ¬ active_task mid task)
    ∧ emitter mid
      = foldl (λ em sub, remove_first sub em)
          (emitter (run env K lib ops new_ExtensionManager))
          (recorded_subscriptions
             (apiHooks (run env K lib ops new_ExtensionManager)))
    ∧ (∀ task, ¬ active_task mid task)
    ∧ emitter mid = []
    ∧ apiHooks mid = []
    ∧ apiEndpoints mid = []
    ∧ endpointRouter mid = []
    ∧ isInitialized mid = false.
Proof.
  set (s := run env K lib ops new_ExtensionManager).
  intros Hinit Hrun. rewrite (reload_initialized w s Hinit) in Hrun.
  rewrite bind_run in Hrun.
  destruct (teardown env w s) as [[] mid|e mid] eqn:Htear; [|discriminate].
  destruct (teardown_done w s mid Htear)
    as (Hh & He & Hr & Hi & Hrec & Hem & Hall).
  destruct (Hall (run_accounted ops _ accounted_new)) as [Hnone Hempty].
  exists mid. repeat split; assumption.
Qed.

End Properties.

(** * The theorems on the concrete host *)

(** ** Runs *)

Example between_parens_examples :
  Demo.between_parens "cron(*/5 * * * *)" = Some "*/5 * * * *"
  ∧ Demo.between_parens "cron()" = None
  ∧ Demo.between_parens "cron(0 0 * * *" = None
  ∧ Demo.between_parens "cron()(0 0 * * *)" = Some "0 0 * * *".
Proof. repeat split. Qed.

Example cron_without_expression_is_invalid :
  invalid_cron_key Demo.K Demo.lib "cron()".
Proof. split; reflexivity. Qed.

(** The first [initialize] of an API-only manager on the concrete host: the
    malformed cron key of [mailer] is reported, its two other entries and
    the entry of [audit] are registered; the endpoint [broken] throws after
    its router is mounted, and [stats] is mounted under its [id]. *)
Example first_initialize_registers :
  apiHooks Demo.initialized_api
  = [cron_hook "./extensions/hooks/mailer/index.js" 0;
     event_hook "./extensions/hooks/mailer/index.js" "items.create" 3;
     event_hook "./extensions/hooks/audit/index.js" "items.delete" 4]
  ∧ emitter Demo.initialized_api = [("items.create", 3); ("items.delete", 4)]
  ∧ cron_tasks Demo.initialized_api
    = [{| task_expression := "* * * * *"; task_handler := 2;
          task_destroyed := false |}]
  ∧ endpointRouter Demo.initialized_api = ["/broken"; "/statistics"]
  ∧ apiEndpoints Demo.initialized_api = ["./extensions/endpoints/stats/"]
  ∧ isInitialized Demo.initialized_api = true.
Proof. repeat split; vm_compute; reflexivity. Qed.

Example first_initialize_trace :
  trace Demo.initialized_api
  = [call_ensureExtensionDirs "./extensions" ["hook"; "endpoint"];
     call_getPackageExtensions "." ["hook"; "endpoint"; "pack"];
     call_getLocalExtensions "./extensions" ["hook"; "endpoint"];
     call_register "./extensions/hooks/mailer/index.js";
     call_logger warn
       (text "Couldn't register cron hook. Provided cron is invalid: not-a-schedule");
     call_register "./extensions/hooks/audit/index.js";
     call_register "./extensions/endpoints/broken/";
     call_logger warn
       (text ("Couldn't register endpoint " +:+ dquote +:+ "broken" +:+ dquote));
     call_logger warn (thrown "boom");
     call_register "./extensions/endpoints/stats/";
     call_logger info (text "Loaded extensions: mailer, broken, audit, stats")].
Proof. vm_compute. reflexivity. Qed.

(** Firing the task of [mailer], whose handler throws: the error is logged
    and the callback returns; with schedules disabled nothing is called. *)
Example fire_mailer_task :
  trace (state_of (fire Demo.world 0 Demo.initialized_api))
  = trace Demo.initialized_api
      ++ [call_handler 2; call_logger error (thrown "late")]
  ∧ fire Demo.world 0 (set_isScheduleHookEnabled false Demo.initialized_api)
    = Ok tt (set_isScheduleHookEnabled false Demo.initialized_api).
Proof. split; vm_compute; reflexivity. Qed.

(** C1 as stated fails.  In app-serving mode an [initialize] that fails in
    the bundler leaves its hooks registered and the manager uninitialized; a
    [reload] then completes without doing anything, and the task and the
    listeners are still there. *)
Lemma reload_on_half_initialized_keeps_hooks :
  reload Demo.app_env Demo.K Demo.lib Demo.world Demo.half_initialized
  = Ok tt Demo.half_initialized
  ∧ active_task Demo.half_initialized 0
  ∧ emitter Demo.half_initialized = [("items.create", 3); ("items.delete", 4)]
  ∧ apiHooks Demo.half_initialized
    = [cron_hook "./extensions/hooks/mailer/index.js" 0;
       event_hook "./extensions/hooks/mailer/index.js" "items.create" 3;
       event_hook "./extensions/hooks/audit/index.js" "items.delete" 4].
Proof.
  split; [apply reload_uninitialized; vm_compute; reflexivity|].
  split.
  - eexists. split; vm_compute; reflexivity.
  - split; vm_compute; reflexivity.
Qed.

Lemma reload_leaves_nothing_stale_witness :
  ∃ mid,
    teardown Demo.api_env Demo.world Demo.initialized_api = Ok tt mid
    ∧ initialize Demo.api_env Demo.K Demo.lib Demo.world true mid
      = Ok tt (state_of (reload Demo.api_env Demo.K Demo.lib Demo.world
                           Demo.initialized_api))
    ∧ (∀ p task,
         cron_hook p task ∈ apiHooks Demo.initialized_api →
         ¬ active_task mid task)
    ∧ emitter mid
      = foldl (λ em sub, remove_first sub em) (emitter Demo.initialized_api)
          (recorded_subscriptions (apiHooks Demo.initialized_api))
    ∧ (∀ task, ¬ active_task mid task)
    ∧ emitter mid = []
    ∧ apiHooks mid = []
    ∧ apiEndpoints mid = []
    ∧ endpointRouter mid = []
    ∧ isInitialized mid = false.
Proof.
  apply (reload_leaves_nothing_stale Demo.api_env Demo.K Demo.lib
           [(Demo.world, op_initialize true)] Demo.world).
  - vm_compute. reflexivity.
  - vm_compute. reflexivity.
Defined.

(** C2 as stated fails.  A second [initialize], called with
    [{ schedule: false }] on an initialized manager whose schedules are
    enabled, changes the state: the flag is now false. *)
Lemma initialize_again_changes_flag :
  isInitialized Demo.initialized_api = true
  ∧ isScheduleHookEnabled Demo.initialized_api = true
  ∧ isScheduleHookEnabled
      (state_of (initialize Demo.api_env Demo.K Demo.lib Demo.world false
                   Demo.initialized_api)) = false
  ∧ state_of (initialize Demo.api_env Demo.K Demo.lib Demo.world false
                Demo.initialized_api) ≠ Demo.initialized_api.
Proof.
  split; [vm_compute; reflexivity|]. split; [vm_compute; reflexivity|].
  split; [vm_compute; reflexivity|].
  intros Heq. apply (f_equal isScheduleHookEnabled) in Heq.
  vm_compute in Heq. discriminate.
Qed.

Lemma initialize_again_only_sets_flag_witness :
  ∃ s',
    initialize Demo.api_env Demo.K Demo.lib Demo.world false
      Demo.initialized_api = Ok tt s'
    ∧ isScheduleHookEnabled s' = false
    ∧ trace s' = trace Demo.initialized_api
    ∧ extensions s' = extensions Demo.initialized_api
    ∧ apiHooks s' = apiHooks Demo.initialized_api
    ∧ apiEndpoints s' = apiEndpoints Demo.initialized_api
    ∧ endpointRouter s' = endpointRouter Demo.initialized_api
    ∧ appExtensions s' = appExtensions Demo.initialized_api
    ∧ emitter s' = emitter Demo.initialized_api
    ∧ cron_tasks s' = cron_tasks Demo.initialized_api
    ∧ require_cache s' = require_cache Demo.initialized_api
    ∧ isInitialized s' = true
    ∧ (isScheduleHookEnabled Demo.initialized_api = false →
       s' = Demo.initialized_api).
Proof.
  apply (initialize_again_only_sets_flag Demo.api_env Demo.K Demo.lib
           Demo.world false Demo.initialized_api).
  vm_compute. reflexivity.
Defined.



(** The failed discovery of the first [initialize] on the concrete host:
    the error logged is the one [ensureExtensionDirs] threw, and the next
    calls are those of the bundling pass. *)
Example failed_discovery_trace :
  discovery_error Demo.app_env Demo.K Demo.world_no_dirs = Some "EACCES"
  ∧ take 3
      (trace (state_of (initialize Demo.app_env Demo.K Demo.lib
                          Demo.world_no_dirs true new_ExtensionManager)))
    = [call_ensureExtensionDirs "./extensions"
         ["interface"; "display"; "layout"; "module"; "panel"; "hook";
          "endpoint"];
       call_logger warn (text "Couldn't load extensions");
       call_logger warn (thrown "EACCES")]
  ∧ trace (state_of (initialize Demo.api_env Demo.K Demo.lib
                       Demo.world_no_local true new_ExtensionManager))
    = [call_ensureExtensionDirs "./extensions" ["hook"; "endpoint"];
       call_getPackageExtensions "." ["hook"; "endpoint"; "pack"];
       call_getLocalExtensions "./extensions" ["hook"; "endpoint"];
       call_logger warn (text "Couldn't load extensions");
       call_logger warn (thrown "EIO")].
Proof. repeat split; vm_compute; reflexivity. Qed.

(** C4 as stated fails.  The name is valid and the installer reports
    success, but the reload that follows fails in the bundler: [install]
    throws and does not return true. *)
Lemma install_throws_when_reload_fails :
  EXTENSION_NAME_REGEX Demo.K "directus-extension-charts" = true
  ∧ installPackage_result Demo.world_bad_bundle "directus-extension-charts"
    = true
  ∧ isInitialized Demo.initialized_app = true
  ∧ match install Demo.app_env Demo.K Demo.lib Demo.world_bad_bundle
            "directus-extension-charts" Demo.initialized_app with
    | Ok _ _ => False
    | Throw e _ => e = "rollup"
    end.
Proof.
  repeat split; vm_compute; reflexivity.
Qed.

Lemma install_outcomes_witness :
  install Demo.api_env Demo.K Demo.lib Demo.world "bad name!"
    Demo.initialized_api = Ok false Demo.initialized_api
  ∧ install Demo.api_env Demo.K Demo.lib Demo.world "directus-extension-charts"
      Demo.initialized_api
    = match reload Demo.api_env Demo.K Demo.lib Demo.world
              (set_trace
                 (trace Demo.initialized_api ++
                    [call_installPackage "directus-extension-charts"])
                 Demo.initialized_api) with
      | Ok _ s' => Ok true s'
      | Throw e s' => Throw e s'
      end.
Proof.
  destruct (install_outcomes Demo.api_env Demo.K Demo.lib Demo.world
              "bad name!" Demo.initialized_api) as (Hbad & _ & _).
  destruct (install_outcomes Demo.api_env Demo.K Demo.lib Demo.world
              "directus-extension-charts" Demo.initialized_api)
    as (_ & _ & Hgood).
  split.
  - apply Hbad. vm_compute. reflexivity.
  - apply Hgood; vm_compute; reflexivity.
Defined.

Lemma bundler_failure_aborts_initialize_witness :
  ∃ mapping mapped,
    getSharedDepsMapping Demo.app_env Demo.lib Demo.world_bad_entry
      (APP_SHARED_DEPS Demo.K)
      (before_bundling Demo.app_env Demo.K Demo.lib Demo.world_bad_entry true
         new_ExtensionManager) = Ok mapping mapped
    ∧ ∃ before t' after e' s',
        APP_EXTENSION_TYPES Demo.K = before ++ t' :: after
        ∧ (∀ u, u ∈ before →
             ∃ code,
               bundler_call Demo.lib Demo.world_bad_entry mapping
                 (extensions
                    (before_bundling Demo.app_env Demo.K Demo.lib
                       Demo.world_bad_entry true new_ExtensionManager)) u
               = returns code)
        ∧ bundler_call Demo.lib Demo.world_bad_entry mapping
            (extensions
               (before_bundling Demo.app_env Demo.K Demo.lib
                  Demo.world_bad_entry true new_ExtensionManager)) t'
          = throws e'
        ∧ initialize Demo.app_env Demo.K Demo.lib Demo.world_bad_entry true
            new_ExtensionManager = Throw e' s'
        ∧ trace s'
          = trace mapped
              ++ map (bundler_trace Demo.lib
                        (extensions
                           (before_bundling Demo.app_env Demo.K Demo.lib
                              Demo.world_bad_entry true new_ExtensionManager)))
                   (before ++ [t'])
        ∧ isInitialized s' = false
        ∧ appExtensions s' = appExtensions new_ExtensionManager
        ∧ ∃ registered,
            registration Demo.app_env Demo.K Demo.lib Demo.world_bad_entry
              (set_isScheduleHookEnabled true new_ExtensionManager)
            = Ok tt registered
            ∧ extensions s' = extensions registered
            ∧ apiHooks s' = apiHooks registered
            ∧ apiEndpoints s' = apiEndpoints registered
            ∧ endpointRouter s' = endpointRouter registered
            ∧ emitter s' = emitter registered
            ∧ cron_tasks s' = cron_tasks registered
            ∧ require_cache s' = require_cache registered.
Proof.
  eexists _, _. split; [vm_compute; reflexivity|].
  apply (bundler_failure_aborts_initialize Demo.app_env Demo.K Demo.lib
           Demo.world_bad_entry true "layout" "rollup").
  - reflexivity.
  - reflexivity.
  - vm_compute. reflexivity.
  - simpl. right. right. left.
  - vm_compute. reflexivity.
Defined.

(** The aborted pass on the concrete host, where the bundler fails on the
    entry built for the layouts and on no other: it is called for the
    interfaces, the displays and the layouts, where it throws, and not for
    the modules and the panels. *)
Example aborted_bundling_trace :
  ∃ s',
    initialize Demo.app_env Demo.K Demo.lib Demo.world_bad_entry true
      new_ExtensionManager = Throw "rollup" s'
    ∧ omap (λ c, match c with call_rollup entry => Some entry | _ => None end)
        (trace s')
      = ["export interface: "; "export display: "; "export layout: "]
    ∧ appExtensions s' = ∅
    ∧ endpointRouter s' = ["/broken"; "/statistics"].
Proof.
  eexists. split; [vm_compute; reflexivity|].
  repeat split; vm_compute; reflexivity.
Qed.

Lemma invalid_cron_entry_skipped_witness :
  ∃ s',
    registerHooks Demo.K Demo.lib Demo.world
      (set_extensions [Demo.mailer; Demo.broken; Demo.audit; Demo.stats]
         new_ExtensionManager) = Ok tt s'
    ∧ (∀ x, registerHook_entry Demo.K Demo.lib
              (entry_path Demo.lib Demo.mailer) ("cron(not-a-schedule)", 1) x
            = Ok tt (set_trace
                       (trace x ++
                          [invalid_cron_warning Demo.K "cron(not-a-schedule)"])
                       x))
    ∧ invalid_cron_warning Demo.K "cron(not-a-schedule)" ∈ trace s'
    ∧ ∀ hook' file' entries' event handler',
        hook' ∈ [Demo.mailer; Demo.broken; Demo.audit; Demo.stats] →
        type hook' = "hook" →
        require_resolve Demo.world (entry_path Demo.lib hook') = returns file' →
        load_hook Demo.world file' = returns (returns entries') →
        (event, handler') ∈ entries' →
        entry_registered Demo.K Demo.lib (entry_path Demo.lib hook') event
          handler' s'.
Proof.
  apply (invalid_cron_entry_skipped Demo.K Demo.lib Demo.world Demo.mailer
           "./extensions/hooks/mailer/index.js"
           [("cron(not-a-schedule)", 1); ("cron(* * * * *)", 2);
            ("items.create", 3)]
           "cron(not-a-schedule)" 1).
  - simpl. left.
  - reflexivity.
  - reflexivity.
  - reflexivity.
  - left.
  - split; vm_compute; reflexivity.
Defined.

Lemma cron_task_callback_guarded_witness :
  ∃ s1 task,
    registerHook_entry Demo.K Demo.lib "./extensions/hooks/mailer/index.js"
      ("cron(* * * * *)", 2) new_ExtensionManager = Ok tt s1
    ∧ task = length (cron_tasks new_ExtensionManager)
    ∧ cron_tasks s1 !! task
      = Some {| task_expression := "* * * * *"; task_handler := 2;
                task_destroyed := false |}
    ∧ apiHooks s1
      = apiHooks new_ExtensionManager
          ++ [cron_hook "./extensions/hooks/mailer/index.js" task]
    ∧ ∀ (w : World) (s2 : State),
        cron_tasks s2 !! task = cron_tasks s1 !! task →
        (isScheduleHookEnabled s2 = false → fire w task s2 = Ok tt s2)
        ∧ (isScheduleHookEnabled s2 = true →
           fire w task s2 = Ok tt (set_trace (trace s2 ++ fired w 2) s2))
        ∧ (∀ e s3, fire w task s2 ≠ Throw e s3)
        ∧ cron_tasks (state_of (fire w task s2)) = cron_tasks s2.
Proof.
  apply (cron_task_callback_guarded Demo.K Demo.lib
           "./extensions/hooks/mailer/index.js" "cron(* * * * *)" "* * * * *"
           2 new_ExtensionManager).
  repeat split; try (vm_compute; reflexivity). discriminate.
Defined.

Lemma listExtensions_after_initialize_witness :
  listExtensions None Demo.initialized_api
  = Ok (map name ([Demo.mailer] ++ [Demo.broken; Demo.audit; Demo.stats]))
      Demo.initialized_api
  ∧ ∀ t, listExtensions (Some t) Demo.initialized_api
         = Ok (map name
                 (filter (λ e, type e = t)
                    ([Demo.mailer] ++ [Demo.broken; Demo.audit; Demo.stats])))
             Demo.initialized_api.
Proof.
  apply (listExtensions_after_initialize Demo.api_env Demo.K Demo.lib
           Demo.world true [Demo.mailer] [Demo.broken; Demo.audit; Demo.stats]
           new_ExtensionManager Demo.initialized_api).
  - reflexivity.
  - reflexivity.
  - reflexivity.
  - reflexivity.
  - vm_compute. reflexivity.
Defined.

Lemma endpoints_mounted_witness :
  ∃ s',
    registerEndpoints Demo.lib Demo.world
      (set_extensions [Demo.mailer; Demo.broken; Demo.audit; Demo.stats]
         new_ExtensionManager) = Ok tt s'
    ∧ "/" +:+ route_name Demo.stats
                (endpoint_object "statistics" (returns tt))
      ∈ endpointRouter s'
    ∧ (registration_function (endpoint_object "statistics" (returns tt))
       = returns tt →
       entry_path Demo.lib Demo.stats ∈ apiEndpoints s').
Proof.
  apply (endpoints_mounted Demo.lib Demo.world Demo.stats
           "./extensions/endpoints/stats/").
  - simpl. do 3 right. left.
  - reflexivity.
  - reflexivity.
  - reflexivity.
Defined.

Lemma initialize_again_switches_schedule_witness :
  initialize Demo.api_env Demo.K Demo.lib Demo.world false Demo.initialized_api
  = Ok tt (set_isScheduleHookEnabled false Demo.initialized_api)
  ∧ ∀ (w' : World) (task : ScheduledTask) (t : CronTask),
      cron_tasks Demo.initialized_api !! task = Some t →
      task_destroyed t = false →
      fire w' task (set_isScheduleHookEnabled false Demo.initialized_api)
      = Ok tt (set_isScheduleHookEnabled false Demo.initialized_api).
Proof.
  apply (initialize_again_switches_schedule Demo.api_env Demo.K Demo.lib
           Demo.world false Demo.initialized_api).
  vm_compute. reflexivity.
Defined.

(** * Further properties of the methods *)

Section Further.

Variable env : Env.
Variable K : Constants.
Variable lib : Lib.

(** ** Objects as lists of pairs *)

Lemma obj_set_keys (k v : string) (obj : list (string * string)) :
  (obj_set k v obj).*1 = if decide (k ∈ obj.*1) then obj.*1 else obj.*1 ++ [k].
Proof.
  induction obj as [|[k' v'] obj IH]; [reflexivity|].
  cbn [obj_set]. destruct (String.eqb k k') eqn:Heq.
  - apply String.eqb_eq in Heq as ->. rewrite !fmap_cons. cbn [fst].
    rewrite decide_True by left. reflexivity.
  - apply String.eqb_neq in Heq. rewrite !fmap_cons, IH. cbn [fst].
    destruct (decide (k ∈ obj.*1)) as [Hin|Hnin].
    + rewrite decide_True by (right; exact Hin). reflexivity.
    + rewrite decide_False; [reflexivity|].
      intros Hin. apply elem_of_cons in Hin as [?|?]; contradiction.
Qed.

Lemma obj_set_NoDup (k v : string) (obj : list (string * string)) :
  NoDup obj.*1 → NoDup (obj_set k v obj).*1.
Proof.
  intros Hnd. rewrite obj_set_keys.
  destruct (decide (k ∈ obj.*1)) as [Hin|Hnin]; [exact Hnd|].
  apply NoDup_app. split; [exact Hnd|]. split.
  - intros x Hx Hk. apply list_elem_of_singleton in Hk as ->. contradiction.
  - apply NoDup_singleton.
Qed.

Lemma elem_of_obj_set (k v d u : string) (obj : list (string * string)) :
  NoDup obj.*1 →
  (d, u) ∈ obj_set k v obj ↔ (d = k ∧ u = v) ∨ (d ≠ k ∧ (d, u) ∈ obj).
Proof.
  induction obj as [|[k' v'] obj IH]; intros Hnd; simpl.
  - rewrite list_elem_of_singleton. split.
    + intros [= -> ->]. left. split; reflexivity.
    + intros [[-> ->]|[_ Hin]]; [reflexivity | inversion Hin].
  - simpl in Hnd. apply NoDup_cons in Hnd as [Hnk Hnd].
    destruct (String.eqb k k') eqn:Heq.
    + apply String.eqb_eq in Heq as <-. rewrite !elem_of_cons. split.
      * intros [[= -> ->]|Hin]; [left; split; reflexivity|].
        right. split; [|right; exact Hin].
        intros ->. apply Hnk. apply list_elem_of_fmap. exists (k, u).
        split; [reflexivity | exact Hin].
      * intros [[-> ->]|[Hne [[= -> ->]|Hin]]];
          [left; reflexivity | contradiction | right; exact Hin].
    + apply String.eqb_neq in Heq. rewrite !elem_of_cons, (IH Hnd). split.
      * intros [[= -> ->]|[[-> ->]|[Hne Hin]]].
        -- right. split; [congruence | left; reflexivity].
        -- left. split; reflexivity.
        -- right. split; [exact Hne | right; exact Hin].
      * intros [[-> ->]|[Hne [[= -> ->]|Hin]]].
        -- right. left. split; reflexivity.
        -- left. reflexivity.
        -- right. right. split; assumption.
Qed.

(** ** [getSharedDepsMapping] *)

Lemma getSharedDepsMapping_loop_result (appDir deps : list string)
    (acc : list (string * string)) (s : State) :
  NoDup acc.*1 →
  (∀ d u, (d, u) ∈ acc → shared_dep_url env lib appDir d = Some u) →
  ∃ mapping s',
    getSharedDepsMapping_loop env lib appDir deps acc s = Ok mapping s'
    ∧ NoDup mapping.*1
    ∧ (∀ d u, (d, u) ∈ mapping ↔
         (d, u) ∈ acc ∨ (d ∈ deps ∧ shared_dep_url env lib appDir d = Some u))
    ∧ s' = set_trace (trace s') s
    ∧ (∀ c, c ∈ trace s → c ∈ trace s')
    ∧ (∀ d, d ∈ deps → shared_dep_url env lib appDir d = None →
         shared_dep_warning d ∈ trace s').
Proof.
  revert acc s. induction deps as [|dep deps IH]; intros acc s Hnd Hacc.
  - exists acc, s. simpl. split; [reflexivity|]. split; [exact Hnd|].
    split; [|split; [destruct s; reflexivity|split; [tauto|]]].
    + intros d u. split; [tauto|]. intros [H|[H _]]; [exact H | inversion H].
    + intros d Hd. inversion Hd.
  - assert (Hwarn : ∀ s0,
              shared_dep_url env lib appDir dep = None →
              ∃ mapping s',
                (logger warn
                   (text ("Couldn't find shared extension dependency "
                            +:+ dquote +:+ dep +:+ dquote));;
                 getSharedDepsMapping_loop env lib appDir deps acc) s0
                = Ok mapping s'
                ∧ NoDup mapping.*1
                ∧ (∀ d u, (d, u) ∈ mapping ↔
                     (d, u) ∈ acc
                     ∨ (d ∈ dep :: deps
                        ∧ shared_dep_url env lib appDir d = Some u))
                ∧ s' = set_trace (trace s') s0
                ∧ (∀ c, c ∈ trace s0 → c ∈ trace s')
                ∧ (∀ d, d ∈ dep :: deps →
                     shared_dep_url env lib appDir d = None →
                     shared_dep_warning d ∈ trace s')).
    { intros s0 Hnone. rewrite bind_run. simpl.
      set (s1 := set_trace _ s0).
      destruct (IH acc s1 Hnd Hacc) as (m & s' & Hrun & Hnd' & Hm & Hs' & Htr & Hw).
      exists m, s'. split; [exact Hrun|]. split; [exact Hnd'|].
      split; [|split; [|split]].
      - intros d u. rewrite Hm, elem_of_cons. split.
        + intros [H|[H1 H2]]; [left; exact H | right; tauto].
        + intros [H|[[->|H1] H2]]; [left; exact H | congruence | right; tauto].
      - rewrite Hs' at 1. reflexivity.
      - intros c Hc. apply Htr. simpl. apply elem_of_app. left. exact Hc.
      - intros d Hd Hdn. apply elem_of_cons in Hd as [->|Hd].
        + apply Htr. simpl. apply elem_of_app. right. left.
        + apply Hw; assumption. }
    simpl. unfold shared_dep_url in Hwarn.
    pose proof (eq_refl (shared_dep_url env lib appDir dep)) as Hurl.
    unfold shared_dep_url in Hurl at 1.
    destruct (find _ appDir) as [depName|]; [|apply Hwarn; reflexivity].
    destruct (String.eqb depName ""); [apply Hwarn; reflexivity|].
    set (url := admin_url lib (PUBLIC_URL env) depName) in *.
    destruct (IH (obj_set dep url acc) s) as (m & s' & Hrun & Hnd' & Hm & Hrest).
    { apply obj_set_NoDup, Hnd. }
    { intros d u Hin. apply elem_of_obj_set in Hin as [[-> ->]|[_ Hin]];
        [symmetry; exact Hurl | apply Hacc, Hin | exact Hnd]. }
    exists m, s'. split; [exact Hrun|]. split; [exact Hnd'|].
    destruct Hrest as (Hs' & Htr & Hw). split; [|split; [exact Hs'|split]].
    + intros d u. rewrite Hm, elem_of_obj_set, elem_of_cons by exact Hnd. split.
      * intros [[[-> ->]|[_ H]]|[H1 H2]].
        -- right. split; [left; reflexivity | symmetry; exact Hurl].
        -- left. exact H.
        -- right. tauto.
      * intros [H|[[->|H1] H2]].
        -- destruct (decide (d = dep)) as [->|Hne].
           ++ left. left. split; [reflexivity|].
              apply Hacc in H. congruence.
           ++ left. right. split; assumption.
        -- left. left. split; [reflexivity | congruence].
        -- right. tauto.
    + exact Htr.
    + intros d Hd Hdn. apply elem_of_cons in Hd as [->|Hd]; [congruence|].
      apply Hw; assumption.
Qed.

(** X1.  When the directory of the app build can be listed,
    [getSharedDepsMapping] returns an object with one property for each
    dependency that has a file there and none for the others: the value is
    the URL of the first file whose name before the dot is the dependency
    with slashes replaced.  Each dependency without a file is reported by a
    warning, and nothing but the trace is changed. *)
Theorem getSharedDepsMapping_result (w : World) (deps appDir : list string)
    (s : State) :
  readdir_result w (app_dist lib) = returns appDir →
  ∃ mapping s',
    getSharedDepsMapping env lib w deps s = Ok mapping s'
    ∧ NoDup mapping.*1
    ∧ (∀ d u, (d, u) ∈ mapping ↔
         d ∈ deps ∧ shared_dep_url env lib appDir d = Some u)
    ∧ (∀ d, d ∈ deps → shared_dep_url env lib appDir d = None →
         shared_dep_warning d ∈ trace s')
    ∧ s' = set_trace (trace s') s.
Proof.
  intros Hdir. unfold getSharedDepsMapping, readdir.
  rewrite !bind_run. simpl. rewrite Hdir. simpl.
  set (s1 := set_trace _ s).
  destruct (getSharedDepsMapping_loop_result appDir deps [] s1)
    as (m & s' & Hrun & Hnd & Hm & Hs' & _ & Hw).
  { constructor. }
  { intros d u Hin. inversion Hin. }
  exists m, s'. split; [exact Hrun|]. split; [exact Hnd|].
  split; [|split; [exact Hw|]].
  - intros d u. rewrite Hm. split; [|tauto].
    intros [Hin|H]; [inversion Hin | exact H].
  - rewrite Hs' at 1. reflexivity.
Qed.

(** ** Bundles *)






(** ** [initialize] without bundling *)

Lemma initialize_without_app (w : World) (schedule' : bool) (s : State) :
  SERVE_APP env = false →
  ∃ s',
    initialize env K lib w schedule' s = Ok tt s'
    ∧ isInitialized s' = true
    ∧ isScheduleHookEnabled s' = schedule'
    ∧ appExtensions s' = appExtensions s.
Proof.
  intros Happ. destruct (isInitialized s) eqn:Hinit.
  - rewrite (initialize_initialized env K lib w schedule' s Hinit).
    eexists. split; [reflexivity|]. simpl. repeat split. exact Hinit.
  - rewrite (initialize_uninitialized env K lib _ _ _ Hinit).
    pose proof (total_unit _ (set_isScheduleHookEnabled schedule' s)
                  (registration_total env K lib w)) as Hreg.
    destruct (registration_frame env K lib w
                (set_isScheduleHookEnabled schedule' s)) as (_ & Ha & Hf).
    set (registered := state_of (registration env K lib w _)) in *.
    exists (state_of (finish registered)).
    rewrite bind_run, Hreg, bind_run. unfold bundle. rewrite Happ. simpl.
    split; [apply total_unit, finish_total|].
    split; [apply finish_initialized|].
    unfold finish, listExtensions. rewrite !bind_run. simpl.
    destruct (bool_decide _); simpl; split; assumption.
Qed.

(** X4.  When the app is not served, [initialize] never throws: whatever
    discovery, the modules and the registration functions do, it completes,
    marks the manager initialized, sets the schedule flag to its argument,
    and leaves the bundle map alone. *)
Theorem initialize_api_completes (w : World) (schedule' : bool) (s : State) :
  SERVE_APP env = false →
  ∃ s',
    initialize env K lib w schedule' s = Ok tt s'
    ∧ isInitialized s' = true
    ∧ isScheduleHookEnabled s' = schedule'
    ∧ appExtensions s' = appExtensions s.
Proof. apply initialize_without_app. Qed.

(** ** Properties kept by the lifecycle methods *)

Section Lifecycle.

Variable P : State → Prop.

Hypothesis P_record : ∀ s c, P s → P (set_trace (trace s ++ [c]) s).
Hypothesis P_flag : ∀ s v, P s → P (set_isScheduleHookEnabled v s).
Hypothesis P_extensions : ∀ s v, P s → P (set_extensions v s).
Hypothesis P_cached :
  ∀ s f, P s → P (set_require_cache ({[f]} ∪ require_cache s) s).
Hypothesis P_entry : ∀ p entry, keeps P (registerHook_entry K lib p entry).
Hypothesis P_mount :
  ∀ s r, P s → P (set_endpointRouter (endpointRouter s ++ [r]) s).
Hypothesis P_endpoint :
  ∀ s p, P s → P (set_apiEndpoints (apiEndpoints s ++ [p]) s).
Hypothesis P_bundles : ∀ s v, P s → P (set_appExtensions v s).
Hypothesis P_initialized : ∀ s v, P s → P (set_isInitialized v s).

Lemma keeps_initialize (w : World) (schedule' : bool) :
  keeps P (initialize env K lib w schedule').
Proof.
  unfold initialize. apply keeps_bind.
  { apply keeps_modify. intros s Hs. apply P_flag, Hs. }
  intros _. apply keeps_bind; [apply keeps_get|]. intros s0.
  apply keeps_if; [apply keeps_ret|].
  apply keeps_bind.
  { apply (keeps_discover env K P w P_record P_extensions). }
  intros _. apply keeps_bind.
  { apply keeps_registerHooks; assumption. }
  intros _. apply keeps_bind.
  { apply keeps_registerEndpoints; assumption. }
  intros _. apply keeps_bind.
  { apply keeps_if; [|apply keeps_ret].
    apply keeps_bind; [apply keeps_generateExtensionBundles, P_record|].
    intros bundles. apply keeps_modify. intros s Hs. apply P_bundles, Hs. }
  intros _. apply keeps_bind.
  { unfold listExtensions. apply keeps_bind; [apply keeps_get|].
    intros s. apply keeps_ret. }
  intros loaded. apply keeps_bind.
  { apply keeps_if; [apply keeps_logger, P_record | apply keeps_ret]. }
  intros _. apply keeps_modify. intros s Hs. apply P_initialized, Hs.
Qed.

Hypothesis P_destroy : ∀ task, keeps P (destroy task).
Hypothesis P_off : ∀ event handler, keeps P (emitter_off event handler).
Hypothesis P_evicted :
  ∀ s f, P s → P (set_require_cache (require_cache s ∖ {[f]}) s).
Hypothesis P_no_hooks : ∀ s, P s → P (set_apiHooks [] s).
Hypothesis P_no_routes : ∀ s, P s → P (set_endpointRouter [] s).
Hypothesis P_no_endpoints : ∀ s, P s → P (set_apiEndpoints [] s).

Lemma keeps_delete_require_cache (w : World) (p : string) :
  keeps P (delete_require_cache w p).
Proof.
  unfold delete_require_cache. apply keeps_bind; [apply keeps_lift|].
  intros file. apply keeps_modify. intros s Hs. apply P_evicted, Hs.
Qed.

Lemma keeps_teardown (w : World) : keeps P (teardown env w).
Proof.
  unfold teardown.
  apply keeps_bind; [apply keeps_logger, P_record|]. intros _.
  apply keeps_bind.
  { unfold unregisterHooks. apply keeps_bind; [apply keeps_get|]. intros s0.
    apply keeps_bind.
    - apply keeps_for_of. intros [p task|p event handler] _; simpl.
      + apply keeps_bind; [apply P_destroy|]. intros _.
        apply keeps_delete_require_cache.
      + apply keeps_bind; [apply P_off|]. intros _.
        apply keeps_delete_require_cache.
    - intros _. apply keeps_modify. intros s Hs. apply P_no_hooks, Hs. }
  intros _. apply keeps_bind.
  { unfold unregisterEndpoints. apply keeps_bind; [apply keeps_get|].
    intros s0. apply keeps_bind.
    - apply keeps_for_of. intros p _. apply keeps_delete_require_cache.
    - intros _. apply keeps_bind.
      + apply keeps_modify. intros s Hs. apply P_no_routes, Hs.
      + intros _. apply keeps_modify. intros s Hs. apply P_no_endpoints, Hs. }
  intros _. apply keeps_bind.
  { apply keeps_if; [|apply keeps_ret].
    apply keeps_modify. intros s Hs. apply P_bundles, Hs. }
  intros _. apply keeps_modify. intros s Hs. apply P_initialized, Hs.
Qed.

Lemma keeps_reload (w : World) : keeps P (reload env K lib w).
Proof.
  intros s Hs. destruct (isInitialized s) eqn:Hinit.
  - rewrite (reload_initialized env K lib w s Hinit).
    apply (keeps_bind P (teardown env w) (λ _, initialize env K lib w true)).
    + apply keeps_teardown.
    + intros _. apply keeps_initialize.
    + exact Hs.
  - rewrite (reload_uninitialized env K lib w s Hinit). exact Hs.
Qed.

Lemma keeps_install (w : World) (name' : string) :
  keeps P (install env K lib w name').
Proof.
  unfold install. apply keeps_if; [apply keeps_ret|].
  apply keeps_bind.
  { unfold installPackage.
    apply keeps_bind; [apply keeps_record, P_record|].
    intros _. apply keeps_ret. }
  intros installed. apply keeps_if; [apply keeps_ret|].
  apply keeps_bind; [apply keeps_reload | intros _; apply keeps_ret].
Qed.

Lemma keeps_fire (w : World) (task : ScheduledTask) : keeps P (fire w task).
Proof.
  unfold fire. apply keeps_bind; [apply keeps_get|]. intros s0.
  destruct (cron_tasks s0 !! task) as [t|]; [|apply keeps_ret].
  apply keeps_if; [apply keeps_ret|].
  unfold cron_callback. apply keeps_bind; [apply keeps_get|]. intros s1.
  apply keeps_if; [|apply keeps_ret].
  apply keeps_try_catch.
  - unfold invoke_handler.
    apply keeps_bind; [apply keeps_record, P_record|].
    intros _. apply keeps_lift.
  - intros e. apply keeps_logger, P_record.
Qed.

Lemma keeps_run (ops : list (World * Op)) (s : State) :
  P s → P (run env K lib ops s).
Proof.
  revert s. induction ops as [|[w op] ops IH]; intros s Hs; simpl.
  - exact Hs.
  - apply IH. destruct op as [b| |n|t|task]; simpl.
    + apply keeps_initialize, Hs.
    + apply keeps_reload, Hs.
    + apply keeps_install, Hs.
    + rewrite listExtensions_run. exact Hs.
    + apply keeps_fire, Hs.
Qed.

End Lifecycle.

(** ** What [initialize] never removes *)

(** X5.  Whether it returns or throws, [initialize] only adds: the hook
    records, the listeners on the bus, the task table, the router stack, the
    endpoint records and the module cache it finds are still there
    afterwards, in the same order and in front of what it added.  It never
    clears what an earlier, failed [initialize] has left. *)
Theorem initialize_only_adds (w : World) (schedule' : bool) (s : State) :
  apiHooks s `prefix_of`
    apiHooks (state_of (initialize env K lib w schedule' s))
  ∧ emitter s `prefix_of`
      emitter (state_of (initialize env K lib w schedule' s))
  ∧ cron_tasks s `prefix_of`
      cron_tasks (state_of (initialize env K lib w schedule' s))
  ∧ endpointRouter s `prefix_of`
      endpointRouter (state_of (initialize env K lib w schedule' s))
  ∧ apiEndpoints s `prefix_of`
      apiEndpoints (state_of (initialize env K lib w schedule' s))
  ∧ require_cache s ⊆
      require_cache (state_of (initialize env K lib w schedule' s)).
Proof.
  pose (P := λ x : State,
          apiHooks s `prefix_of` apiHooks x
          ∧ emitter s `prefix_of` emitter x
          ∧ cron_tasks s `prefix_of` cron_tasks x
          ∧ endpointRouter s `prefix_of` endpointRouter x
          ∧ apiEndpoints s `prefix_of` apiEndpoints x
          ∧ require_cache s ⊆ require_cache x).
  assert (Hrec : ∀ x c, P x → P (set_trace (trace x ++ [c]) x))
    by (intros x c Hx; exact Hx).
  apply (keeps_initialize P); try (intros x v Hx; exact Hx).
  - intros x f (? & ? & ? & ? & ? & Hc). repeat split; try assumption.
    simpl. set_solver.
  - apply keeps_registerHook_entry; [exact Hrec|..].
    + intros x sub (? & ? & ? & ? & ? & ?). repeat split; try assumption.
      simpl. apply prefix_app_r. assumption.
    + intros x t (? & ? & ? & ? & ? & ?). repeat split; try assumption.
      simpl. apply prefix_app_r. assumption.
    + intros x h (? & ? & ? & ? & ? & ?). repeat split; try assumption.
      simpl. apply prefix_app_r. assumption.
  - intros x r (? & ? & ? & ? & ? & ?). repeat split; try assumption.
    simpl. apply prefix_app_r. assumption.
  - intros x p (? & ? & ? & ? & ? & ?). repeat split; try assumption.
    simpl. apply prefix_app_r. assumption.
  - repeat split; reflexivity.
Qed.

(** ** Old tasks after a reload *)

Lemma handles_in_table_entry (p : string) (entry : string * ListenerFn) :
  keeps handles_in_table (registerHook_entry K lib p entry).
Proof.
  destruct entry as [event handler]. intros s Hs. unfold registerHook_entry.
  destruct (String.prefix "cron(" event).
  - destruct (falsy _ || negb _); simpl.
    + exact Hs.
    + intros p' task Hin. simpl in *. rewrite length_app. simpl.
      apply elem_of_app in Hin as [Hin|Hin].
      * specialize (Hs p' task Hin). lia.
      * apply list_elem_of_singleton in Hin. injection Hin as _ ->. lia.
  - simpl. intros p' task Hin. simpl in *.
    apply elem_of_app in Hin as [Hin|Hin]; [apply (Hs p' task Hin)|].
    apply list_elem_of_singleton in Hin. discriminate.
Qed.

(** In every state the host can reach, the handles on record point into the
    task table. *)
Lemma run_handles_in_table (ops : list (World * Op)) :
  handles_in_table (run env K lib ops new_ExtensionManager).
Proof.
  apply (keeps_run handles_in_table); try (intros x v Hx; exact Hx).
  - apply handles_in_table_entry.
  - intros task s Hs p task' Hin. simpl in *. rewrite length_alter.
    apply (Hs p task' Hin).
  - intros event handler s Hs. exact Hs.
  - intros s _ p task Hin. inversion Hin.
  - intros s Hs. exact Hs.
  - intros s Hs. exact Hs.
  - intros p task Hin. inversion Hin.
Qed.

Lemma teardown_table_length (w : World) (s : State) :
  length (cron_tasks (state_of (teardown env w s))) = length (cron_tasks s).
Proof.
  pose (P := λ x : State, length (cron_tasks x) = length (cron_tasks s)).
  apply (keeps_teardown P); try (intros x v Hx; exact Hx);
    try (intros x Hx; exact Hx).
  - intros task x Hx. unfold P in *. simpl. rewrite length_alter. exact Hx.
  - intros event handler x Hx. exact Hx.
  - reflexivity.
Qed.

(** X6.  After any sequence of operations on a new manager, let [reload] run
    on an initialized manager and complete.  From then on, firing a task
    that was on record before the reload never calls its handler: the task
    stays destroyed through the re-registration, and the new tasks get new
    handles. *)
Theorem reloaded_tasks_stay_silent (ops : list (World * Op)) (w w' : World)
    (p : string) (task : ScheduledTask) (s' : State) :
  isInitialized (run env K lib ops new_ExtensionManager) = true →
  reload env K lib w (run env K lib ops new_ExtensionManager) = Ok tt s' →
  cron_hook p task ∈ apiHooks (run env K lib ops new_ExtensionManager) →
  fire w' task s' = Ok tt s'.
Proof.
  set (s := run env K lib ops new_ExtensionManager).
  intros Hinit Hrun Hin.
  rewrite (reload_initialized env K lib w s Hinit), bind_run in Hrun.
  pose proof (teardown_table_length w s) as Hlen.
  destruct (teardown env w s) as [[] mid|e mid] eqn:Htear; [|discriminate].
  simpl in Hlen.
  destruct (teardown_done env w s mid Htear) as (_ & _ & _ & _ & Hrec & _).
  pose proof (run_handles_in_table ops p task Hin) as Hlt.
  fold s in Hlt. rewrite <- Hlen in Hlt.
  destruct (lookup_lt_is_Some_2 _ _ Hlt) as [t Ht].
  assert (Hd : task_destroyed t = true).
  { destruct (task_destroyed t) eqn:Hd; [reflexivity|].
    destruct (Hrec p task Hin). exists t. split; assumption. }
  pose (P := λ x : State, cron_tasks x !! task = Some t).
  assert (Hk : keeps P (initialize env K lib w true)).
  { apply keeps_initialize; try (intros x v Hx; exact Hx).
    apply keeps_registerHook_entry; try (intros x v Hx; exact Hx).
    intros x t' Hx. unfold P in *. simpl. apply lookup_app_l_Some, Hx. }
  specialize (Hk mid Ht). rewrite Hrun in Hk. simpl in Hk. unfold P in Hk.
  unfold fire. rewrite bind_run. simpl. rewrite Hk, Hd. reflexivity.
Qed.

(** ** The endpoint registrar, exactly *)

Lemma endpoint_turn_effect (w : World) (endpoint : Extension) (s : State) :
  ∃ s',
    endpoint_turn lib w endpoint s = Ok tt s'
    ∧ endpointRouter s'
      = endpointRouter s ++ option_list (mounted_route lib w endpoint)
    ∧ apiEndpoints s'
      = apiEndpoints s ++ option_list (recorded_endpoint lib w endpoint)
    ∧ require_cache s'
      = list_to_set (option_list (cached_file lib w endpoint))
          ∪ require_cache s
    ∧ apiHooks s' = apiHooks s
    ∧ emitter s' = emitter s
    ∧ cron_tasks s' = cron_tasks s
    ∧ extensions s' = extensions s.
Proof.
  unfold endpoint_turn, try_catch, registerEndpoint, require.
  unfold mounted_route, recorded_endpoint, loaded_endpoint, cached_file.
  fold (entry_path lib endpoint). rewrite !bind_run.
  destruct (require_resolve w (entry_path lib endpoint)) as [file|e]; simpl.
  - rewrite !bind_run.
    destruct (load_endpoint w file) as [mod'|e]; simpl.
    + fold (route_name endpoint mod') (registration_function mod'). mrun.
      destruct (registration_function mod') as [[]|e]; mrun;
        eexists; (split; [reflexivity|]); simpl;
        rewrite ?app_nil_r, union_empty_r_L; repeat split.
    + mrun. eexists. split; [reflexivity|]. simpl.
      rewrite !app_nil_r, union_empty_l_L. repeat split.
  - mrun. eexists. split; [reflexivity|]. simpl.
    rewrite !app_nil_r, union_empty_l_L. repeat split.
Qed.

Lemma endpoint_turns_effect (w : World) (l : list Extension) (s : State) :
  ∃ s',
    for_of l (endpoint_turn lib w) s = Ok tt s'
    ∧ endpointRouter s' = endpointRouter s ++ omap (mounted_route lib w) l
    ∧ apiEndpoints s' = apiEndpoints s ++ omap (recorded_endpoint lib w) l
    ∧ require_cache s'
      = list_to_set (omap (cached_file lib w) l) ∪ require_cache s
    ∧ apiHooks s' = apiHooks s
    ∧ emitter s' = emitter s
    ∧ cron_tasks s' = cron_tasks s
    ∧ extensions s' = extensions s.
Proof.
  revert s. induction l as [|x l IH]; intros s.
  - exists s. simpl. rewrite !app_nil_r, union_empty_l_L. repeat split.
  - destruct (endpoint_turn_effect w x s)
      as (s1 & Hrun & Hr & Ha & Hc & Hh & He & Ht & Hx).
    destruct (IH s1) as (s' & Hrun' & Hr' & Ha' & Hc' & Hh' & He' & Ht' & Hx').
    exists s'. simpl. rewrite bind_run, Hrun. split; [exact Hrun'|].
    rewrite Hr', Ha', Hc', Hr, Ha, Hc, <- !app_assoc.
    split; [|split; [|split; [|repeat split; congruence]]].
    + f_equal. destruct (mounted_route lib w x); reflexivity.
    + f_equal. destruct (recorded_endpoint lib w x); reflexivity.
    + destruct (cached_file lib w x); simpl.
      * apply set_eq. intros f.
        rewrite !elem_of_union, elem_of_singleton, elem_of_empty. tauto.
      * apply set_eq. intros f. rewrite !elem_of_union, elem_of_empty. tauto.
Qed.

(** X7.  [registerEndpoints] never throws.  It mounts one sub-router for
    each endpoint extension whose module loads, in the order of the
    extension list, and for no other extension; it records the path of those
    whose registration function returns, so that an endpoint whose
    registration function throws is mounted but not recorded.  The modules
    that loaded are in the cache.  Hooks, listeners and tasks are left
    alone. *)
Theorem registerEndpoints_result (w : World) (s : State) :
  ∃ s',
    registerEndpoints lib w s = Ok tt s'
    ∧ endpointRouter s'
      = endpointRouter s
          ++ omap (mounted_route lib w)
               (filter (λ e, type e = "endpoint") (extensions s))
    ∧ apiEndpoints s'
      = apiEndpoints s
          ++ omap (recorded_endpoint lib w)
               (filter (λ e, type e = "endpoint") (extensions s))
    ∧ require_cache s'
      = list_to_set
          (omap (cached_file lib w)
             (filter (λ e, type e = "endpoint") (extensions s)))
          ∪ require_cache s
    ∧ apiHooks s' = apiHooks s
    ∧ emitter s' = emitter s
    ∧ cron_tasks s' = cron_tasks s
    ∧ extensions s' = extensions s.
Proof. rewrite registerEndpoints_run. apply endpoint_turns_effect. Qed.

(** ** [unregisterEndpoints] *)

Lemma evictions_effect (w : World) (l : list string) (s : State) :
  (∀ p, p ∈ l → ∃ file, require_resolve w p = returns file) →
  ∃ s',
    for_of l (delete_require_cache w) s = Ok tt s'
    ∧ (∀ f, f ∈ require_cache s' ↔
         f ∈ require_cache s ∧ ∀ p, p ∈ l → require_resolve w p ≠ returns f)
    ∧ s' = set_require_cache (require_cache s') s.
Proof.
  revert s. induction l as [|p l IH]; intros s Hres.
  - exists s. simpl. split; [reflexivity|]. split; [|destruct s; reflexivity].
    intros f. split; [|tauto]. intros Hf. split; [exact Hf|].
    intros p Hp. inversion Hp.
  - destruct (Hres p) as [file Hfile]; [left|].
    simpl. rewrite bind_run. unfold delete_require_cache at 1.
    rewrite bind_run, Hfile. simpl. set (s1 := set_require_cache _ s).
    destruct (IH s1) as (s' & Hrun & Hc & Hs').
    { intros p' Hp'. apply Hres. right. exact Hp'. }
    exists s'. split; [exact Hrun|]. split.
    + intros f. rewrite Hc. simpl. rewrite elem_of_difference.
      rewrite elem_of_singleton. split.
      * intros [[Hf Hne] Hl]. split; [exact Hf|].
        intros p' Hp'. apply elem_of_cons in Hp' as [->|Hp'].
        -- rewrite Hfile. congruence.
        -- apply Hl, Hp'.
      * intros [Hf Hl]. split; [split; [exact Hf|]|].
        -- intros ->. apply (Hl p); [left | exact Hfile].
        -- intros p' Hp'. apply Hl. right. exact Hp'.
    + rewrite Hs' at 1. reflexivity.
Qed.

Lemma unregisterEndpoints_effect (w : World) (s : State) :
  (∀ p, p ∈ apiEndpoints s → ∃ file, require_resolve w p = returns file) →
  ∃ s',
    unregisterEndpoints w s = Ok tt s'
    ∧ endpointRouter s' = []
    ∧ apiEndpoints s' = []
    ∧ (∀ f, f ∈ require_cache s' ↔
         f ∈ require_cache s
         ∧ ∀ p, p ∈ apiEndpoints s → require_resolve w p ≠ returns f)
    ∧ apiHooks s' = apiHooks s
    ∧ emitter s' = emitter s
    ∧ cron_tasks s' = cron_tasks s
    ∧ trace s' = trace s.
Proof.
  intros Hres. unfold unregisterEndpoints. rewrite bind_run. simpl.
  rewrite bind_run.
  destruct (evictions_effect w (apiEndpoints s) s Hres) as (s1 & -> & Hc & Hs1).
  mrun. eexists. split; [reflexivity|]. simpl.
  split; [reflexivity|]. split; [reflexivity|]. split; [exact Hc|].
  rewrite Hs1. repeat split.
Qed.

(** X8.  When the path of every recorded endpoint resolves,
    [unregisterEndpoints] returns with the router stack and the endpoint
    records empty; the cache has lost the modules of the recorded endpoints
    and nothing else; hooks, listeners, tasks and the log are untouched. *)
Theorem unregisterEndpoints_result (w : World) (s : State) :
  (∀ p, p ∈ apiEndpoints s → ∃ file, require_resolve w p = returns file) →
  ∃ s',
    unregisterEndpoints w s = Ok tt s'
    ∧ endpointRouter s' = []
    ∧ apiEndpoints s' = []
    ∧ (∀ f, f ∈ require_cache s' ↔
         f ∈ require_cache s
         ∧ ∀ p, p ∈ apiEndpoints s → require_resolve w p ≠ returns f)
    ∧ apiHooks s' = apiHooks s
    ∧ emitter s' = emitter s
    ∧ cron_tasks s' = cron_tasks s
    ∧ trace s' = trace s.
Proof. apply unregisterEndpoints_effect. Qed.


(** ** [reload] when the app is not served *)

Lemma for_of_returns {A : Type} (l : list A) (body : A → M unit) (s : State) :
  (∀ x, x ∈ l → total (body x)) → ∃ s', for_of l body s = Ok tt s'.
Proof.
  revert s. induction l as [|x l IH]; intros s Hbody; simpl.
  - eexists. reflexivity.
  - rewrite bind_run.
    destruct (Hbody x ltac:(left) s) as ([] & s1 & ->).
    apply IH. intros y Hy. apply Hbody. right. exact Hy.
Qed.

(** The teardown of [reload] returns when the paths on record resolve. *)
Lemma teardown_returns (w : World) (s : State) :
  records_resolve w s → ∃ mid, teardown env w s = Ok tt mid.
Proof.
  intros [Hhooks Hends]. unfold teardown. rewrite bind_run. simpl.
  set (s0 := set_trace _ s). rewrite bind_run.
  unfold unregisterHooks at 1. rewrite bind_run. simpl. rewrite bind_run.
  assert (Hk : keeps (λ x, apiEndpoints x = apiEndpoints s)
                 (for_of (apiHooks s) (unregisterHook w))).
  { apply keeps_for_of. intros [p task|p event handler] _; simpl.
    - apply keeps_bind; [apply keeps_modify; intros x Hx; exact Hx|].
      intros _. apply keeps_delete_require_cache. intros x f Hx. exact Hx.
    - apply keeps_bind; [apply keeps_modify; intros x Hx; exact Hx|].
      intros _. apply keeps_delete_require_cache. intros x f Hx. exact Hx. }
  specialize (Hk s0 eq_refl).
  destruct (for_of_returns (apiHooks s) (unregisterHook w) s0) as [s1 Hloop].
  { intros hook Hin x. destruct (Hhooks hook Hin) as [file Hfile].
    destruct hook as [p task|p event handler]; simpl in *;
      rewrite bind_run; simpl; unfold delete_require_cache;
      rewrite bind_run, Hfile; simpl; eexists _, _; reflexivity. }
  rewrite Hloop in Hk |- *. simpl in Hk |- *. rewrite bind_run.
  destruct (unregisterEndpoints_effect w (set_apiHooks [] s1))
    as (s2 & -> & _).
  { intros p Hp. apply Hends. simpl in Hp. rewrite <- Hk. exact Hp. }
  rewrite bind_run. destruct (SERVE_APP env); eexists; reflexivity.
Qed.

(** The teardown of [reload] logs one line and nothing else; it leaves the
    extension list alone and, when the app is not served, the bundle map
    too. *)
Lemma teardown_frame (w : World) (s : State) :
  trace (state_of (teardown env w s))
  = trace s ++ [call_logger info (text "Reloading extensions")]
  ∧ extensions (state_of (teardown env w s)) = extensions s
  ∧ isScheduleHookEnabled (state_of (teardown env w s))
    = isScheduleHookEnabled s
  ∧ (SERVE_APP env = false →
     appExtensions (state_of (teardown env w s)) = appExtensions s).
Proof.
  unfold teardown. rewrite bind_run. simpl. set (s0 := set_trace _ s).
  pose (P := λ x : State,
          trace x = trace s0 ∧ extensions x = extensions s0
          ∧ isScheduleHookEnabled x = isScheduleHookEnabled s0
          ∧ appExtensions x = appExtensions s0).
  assert (Hk : keeps P (unregisterHooks w;; unregisterEndpoints w)).
  { apply keeps_bind.
    - unfold unregisterHooks. apply keeps_bind; [apply keeps_get|].
      intros x0. apply keeps_bind.
      + apply keeps_for_of. intros [p task|p event handler] _; simpl.
        * apply keeps_bind; [apply keeps_modify; intros x Hx; exact Hx|].
          intros _. apply keeps_delete_require_cache. intros x f Hx. exact Hx.
        * apply keeps_bind; [apply keeps_modify; intros x Hx; exact Hx|].
          intros _. apply keeps_delete_require_cache. intros x f Hx. exact Hx.
      + intros _. apply keeps_modify. intros x Hx. exact Hx.
    - intros _. unfold unregisterEndpoints. apply keeps_bind; [apply keeps_get|].
      intros x0. apply keeps_bind.
      + apply keeps_for_of. intros p _. apply keeps_delete_require_cache.
        intros x f Hx. exact Hx.
      + intros _. apply keeps_bind; [apply keeps_modify; intros x Hx; exact Hx|].
        intros _. apply keeps_modify. intros x Hx. exact Hx. }
  specialize (Hk s0 (conj eq_refl (conj eq_refl (conj eq_refl eq_refl)))).
  rewrite bind_run in Hk. rewrite bind_run.
  destruct (unregisterHooks w s0) as [[] s1|e s1]; simpl in Hk |- *.
  - rewrite bind_run.
    destruct (unregisterEndpoints w s1) as [[] s2|e s2]; simpl in Hk |- *.
    + destruct Hk as (Ht & Hx & Hf & Ha).
      destruct (SERVE_APP env); simpl;
        (split; [exact Ht|]); (split; [exact Hx|]); (split; [exact Hf|]);
        [discriminate | intros _; exact Ha].
    + destruct Hk as (Ht & Hx & Hf & Ha).
      repeat split; try assumption. intros _. exact Ha.
  - destruct Hk as (Ht & Hx & Hf & Ha).
    repeat split; try assumption. intros _. exact Ha.
Qed.

(** Discovery and the registrars add to the router and to the endpoint
    records exactly what the endpoint extensions of the list they end with
    give. *)
Lemma registration_routes (w : World) (s : State) :
  endpointRouter (state_of (registration env K lib w s))
  = endpointRouter s
      ++ omap (mounted_route lib w)
           (filter (λ e, type e = "endpoint")
              (extensions (state_of (registration env K lib w s))))
  ∧ apiEndpoints (state_of (registration env K lib w s))
    = apiEndpoints s
        ++ omap (recorded_endpoint lib w)
             (filter (λ e, type e = "endpoint")
                (extensions (state_of (registration env K lib w s)))).
Proof.
  pose (P := λ x : State,
          endpointRouter x = endpointRouter s
          ∧ apiEndpoints x = apiEndpoints s).
  assert (Hrec : ∀ x c, P x → P (set_trace (trace x ++ [c]) x))
    by (intros x c Hx; exact Hx).
  assert (Hk : keeps P (discover env K w;; registerHooks K lib w)).
  { apply keeps_bind.
    - apply keeps_discover; [exact Hrec|]. intros x v Hx. exact Hx.
    - intros _. apply keeps_registerHooks; [exact Hrec| |].
      + intros x f Hx. exact Hx.
      + apply keeps_registerHook_entry; try exact Hrec;
          intros x v Hx; exact Hx. }
  specialize (Hk s (conj eq_refl eq_refl)).
  assert (Htot : total (discover env K w;; registerHooks K lib w)).
  { apply total_bind; [apply discover_total|]. intros _.
    apply registerHooks_total. }
  pose proof (total_unit _ s Htot) as Hrun.
  set (s2 := state_of ((discover env K w;; registerHooks K lib w) s)) in *.
  assert (Hreg : registration env K lib w s = registerEndpoints lib w s2).
  { unfold registration. rewrite bind_run in Hrun. rewrite !bind_run.
    destruct (discover env K w s) as [[] s1|e s1]; [|discriminate].
    rewrite bind_run, Hrun. reflexivity. }
  rewrite Hreg, registerEndpoints_run.
  destruct (endpoint_turns_effect w
              (filter (λ e, type e = "endpoint") (extensions s2)) s2)
    as (s3 & -> & Hr & Ha & _ & _ & _ & _ & Hx).
  simpl. destruct Hk as [Hr2 Ha2]. rewrite Hr, Ha, Hx, Hr2, Ha2.
  split; reflexivity.
Qed.

(** X11.  When the app is not served and [require.resolve] finds the paths
    on record, [reload] does not throw.  On a manager that is not
    initialized it changes nothing.  On an initialized manager it logs that
    it reloads and tears down: the records and the router are emptied, every recorded task
    is destroyed and every recorded listener removed from the bus.  From
    there it initializes again: the manager ends initialized, with schedules
    enabled and the bundle map untouched, and the router and the endpoint
    records hold what the endpoint extensions of the new list give and
    nothing of what they held before. *)
Theorem reload_api_completes (w : World) (s : State) :
  SERVE_APP env = false →
  records_resolve w s →
  ∃ s',
    reload env K lib w s = Ok tt s'
    ∧ isInitialized s' = isInitialized s
    ∧ (isInitialized s = false → s' = s)
    ∧ (isInitialized s = true →
       ∃ mid,
         teardown env w s = Ok tt mid
         ∧ initialize env K lib w true mid = Ok tt s'
         ∧ trace mid
           = trace s ++ [call_logger info (text "Reloading extensions")]
         ∧ isInitialized mid = false
         ∧ apiHooks mid = []
         ∧ apiEndpoints mid = []
         ∧ endpointRouter mid = []
         ∧ (∀ p task, cron_hook p task ∈ apiHooks s → ¬ active_task mid task)
         ∧ emitter mid
           = foldl (λ em sub, remove_first sub em) (emitter s)
               (recorded_subscriptions (apiHooks s))
         ∧ trace mid `prefix_of` trace s'
         ∧ isScheduleHookEnabled s' = true
         ∧ appExtensions s' = appExtensions s
         ∧ endpointRouter s'
           = omap (mounted_route lib w)
               (filter (λ e, type e = "endpoint") (extensions s'))
         ∧ apiEndpoints s'
           = omap (recorded_endpoint lib w)
               (filter (λ e, type e = "endpoint") (extensions s'))).
Proof.
  intros Happ Hres. destruct (isInitialized s) eqn:Hinit.
  - rewrite (reload_initialized env K lib w s Hinit), bind_run.
    destruct (teardown_frame w s) as (Htr & _ & _ & Hbundles).
    specialize (Hbundles Happ).
    destruct (teardown_returns w s Hres) as (mid & Htear).
    rewrite Htear in Htr, Hbundles |- *. simpl in Htr, Hbundles.
    destruct (teardown_done env w s mid Htear)
      as (Hh & He & Hr & Hi & Hrec & Hem & _).
    rewrite (initialize_uninitialized env K lib _ _ _ Hi).
    pose proof (total_unit _ (set_isScheduleHookEnabled true mid)
                  (registration_total env K lib w)) as Hreg.
    destruct (registration_frame env K lib w (set_isScheduleHookEnabled true mid))
      as (_ & Ha & Hf).
    destruct (registration_routes w (set_isScheduleHookEnabled true mid))
      as (Hroutes & Hends).
    pose (P := λ x : State, trace mid `prefix_of` trace x).
    assert (Htrace : P (state_of (registration env K lib w
                                    (set_isScheduleHookEnabled true mid)))).
    { assert (Hlog : ∀ x c, P x → P (set_trace (trace x ++ [c]) x))
        by (intros x c Hx; apply prefix_app_r; exact Hx).
      assert (Hk : keeps P (registration env K lib w)).
      { unfold registration.
        apply keeps_bind; [apply keeps_discover; [exact Hlog|]|].
        { intros x v Hx. exact Hx. }
        intros _. apply keeps_bind.
        { apply keeps_registerHooks; [exact Hlog| |].
          - intros x f Hx. exact Hx.
          - apply keeps_registerHook_entry; try exact Hlog;
              intros x v Hx; exact Hx. }
        intros _. apply keeps_registerEndpoints; try exact Hlog;
          intros x v Hx; exact Hx. }
      apply Hk. unfold P. reflexivity. }
    set (registered := state_of (registration env K lib w _)) in *.
    simpl in Ha, Hf, Hroutes, Hends. rewrite Hr in Hroutes. rewrite He in Hends.
    simpl in Hroutes, Hends.
    exists (state_of (finish registered)).
    rewrite bind_run, Hreg, bind_run. unfold bundle. rewrite Happ. simpl.
    assert (Hfin : finish registered = Ok tt (state_of (finish registered)))
      by apply total_unit, finish_total.
    split; [exact Hfin|]. split; [apply finish_initialized|].
    split; [discriminate|]. intros _. exists mid.
    split; [reflexivity|].
    split.
    { rewrite (initialize_uninitialized env K lib _ _ _ Hi).
      rewrite bind_run, Hreg, bind_run. unfold bundle. rewrite Happ.
      exact Hfin. }
    split; [exact Htr|]. split; [exact Hi|]. split; [exact Hh|].
    split; [exact He|]. split; [exact Hr|]. split; [exact Hrec|].
    split; [exact Hem|].
    unfold finish, listExtensions. rewrite !bind_run. simpl.
    unfold P in Htrace.
    destruct (bool_decide _); simpl;
      (split; [try apply prefix_app_r; exact Htrace|]);
      (split; [exact Hf|]); (split; [congruence|]);
      split; assumption.
  - rewrite (reload_uninitialized env K lib w s Hinit).
    exists s. split; [reflexivity|]. split; [exact Hinit|].
    split; [reflexivity | discriminate].
Qed.

(** ** [install] before [initialize] *)

(** X12.  On a manager that is not initialized, [install] of a valid name
    that the installer accepts returns true although nothing is loaded: the
    reload it calls returns at its guard, and the only call made is the one
    to the installer. *)
Theorem install_before_initialize (w : World) (name' : string) (s : State) :
  isInitialized s = false →
  EXTENSION_NAME_REGEX K name' = true →
  installPackage_result w name' = true →
  install env K lib w name' s
  = Ok true (set_trace (trace s ++ [call_installPackage name']) s).
Proof.
  intros Hinit Hname Hinst. unfold install, installPackage.
  rewrite Hname. simpl. rewrite !bind_run. simpl. rewrite Hinst. simpl.
  rewrite bind_run, reload_uninitialized by exact Hinit. reflexivity.
Qed.

(** ** The hook registrar and the bus *)

Lemma filter_cons_bool {A : Type} (f : A → bool) (x : A) (l : list A) :
  filter f (x :: l) = if f x then x :: filter f l else filter f l.
Proof. rewrite filter_cons. destruct (f x); reflexivity. Qed.

Lemma hook_entry_effect (p : string) (entry : string * ListenerFn)
    (s : State) :
  ∃ s',
    registerHook_entry K lib p entry s = Ok tt s'
    ∧ emitter s' = emitter s ++ (if plain_event entry then [entry] else [])
    ∧ recorded_subscriptions (apiHooks s')
      = recorded_subscriptions (apiHooks s)
          ++ (if plain_event entry then [entry] else [])
    ∧ length (cron_tasks s')
      = length (cron_tasks s) + (if scheduled_entry K lib entry then 1 else 0)
    ∧ length (apiHooks s')
      = length (apiHooks s) + (if plain_event entry then 1 else 0)
        + (if scheduled_entry K lib entry then 1 else 0)
    ∧ require_cache s' = require_cache s
    ∧ endpointRouter s' = endpointRouter s
    ∧ apiEndpoints s' = apiEndpoints s.
Proof.
  destruct entry as [event handler].
  unfold registerHook_entry, plain_event, scheduled_entry,
    recorded_subscriptions.
  simpl. destruct (String.prefix "cron(" event); simpl.
  - destruct (falsy _ || negb _); simpl; eexists; (split; [reflexivity|]);
      simpl; rewrite ?omap_app, ?length_app, ?app_nil_r; simpl;
      rewrite ?app_nil_r; repeat split; lia.
  - eexists. split; [reflexivity|]. simpl.
    rewrite omap_app, length_app. simpl. repeat split; lia.
Qed.

Lemma hook_entries_effect (p : string) (entries : list (string * ListenerFn))
    (s : State) :
  ∃ s',
    for_of entries (registerHook_entry K lib p) s = Ok tt s'
    ∧ emitter s' = emitter s ++ filter plain_event entries
    ∧ recorded_subscriptions (apiHooks s')
      = recorded_subscriptions (apiHooks s) ++ filter plain_event entries
    ∧ length (cron_tasks s')
      = length (cron_tasks s) + length (filter (scheduled_entry K lib) entries)
    ∧ length (apiHooks s')
      = length (apiHooks s) + length (filter plain_event entries)
        + length (filter (scheduled_entry K lib) entries)
    ∧ require_cache s' = require_cache s
    ∧ endpointRouter s' = endpointRouter s
    ∧ apiEndpoints s' = apiEndpoints s.
Proof.
  revert s. induction entries as [|entry entries IH]; intros s.
  - exists s. simpl. rewrite !app_nil_r. repeat split; lia.
  - destruct (hook_entry_effect p entry s)
      as (s1 & Hrun & He & Hr & Hc & Hl & Hq & Ho & Ha).
    destruct (IH s1) as (s' & Hrun' & He' & Hr' & Hc' & Hl' & Hq' & Ho' & Ha').
    exists s'. simpl. rewrite bind_run, Hrun. split; [exact Hrun'|].
    rewrite !filter_cons_bool, He', Hr', Hc', Hl', He, Hr, Hc, Hl.
    rewrite <- !app_assoc.
    destruct (plain_event entry), (scheduled_entry K lib entry); simpl;
      repeat split; try congruence; lia.
Qed.

(** X13.  For a hook extension whose module loads and whose registration
    function returns a mapping, [registerHook] returns; the bus has received
    exactly the entries whose key does not start with [cron(], with the
    handler as given and in the order of the mapping, and the records that
    stand for subscriptions have grown by the same entries, so that records
    and bus stay in step; the task table has grown by one task for each
    valid cron key; and the module is in the cache. *)
Theorem registerHook_result (w : World) (hook : Extension) (file : string)
    (entries : list (string * ListenerFn)) (s : State) :
  require_resolve w (entry_path lib hook) = returns file →
  load_hook w file = returns (returns entries) →
  ∃ s',
    registerHook K lib w hook s = Ok tt s'
    ∧ emitter s' = emitter s ++ filter plain_event entries
    ∧ recorded_subscriptions (apiHooks s')
      = recorded_subscriptions (apiHooks s) ++ filter plain_event entries
    ∧ length (cron_tasks s')
      = length (cron_tasks s) + length (filter (scheduled_entry K lib) entries)
    ∧ length (apiHooks s')
      = length (apiHooks s) + length (filter plain_event entries)
        + length (filter (scheduled_entry K lib) entries)
    ∧ require_cache s' = {[file]} ∪ require_cache s
    ∧ endpointRouter s' = endpointRouter s
    ∧ apiEndpoints s' = apiEndpoints s.
Proof.
  intros Hfile Hload. unfold registerHook. fold (entry_path lib hook).
  rewrite bind_run.
  rewrite (require_loaded w load_hook _ file _ s Hfile Hload). mrun.
  apply hook_entries_effect.
Qed.

(** X14.  A hook extension whose path does not resolve, whose module does
    not load or whose registration function throws costs [registerHooks]
    only two warnings, the first with the name of the extension and the
    second with what was thrown: its turn returns, and it leaves no record,
    no listener and no task. *)
Theorem unloadable_hook_reported (w : World) (hook : Extension) (e : Err)
    (s : State) :
  require_resolve w (entry_path lib hook) = throws e
  ∨ (∃ file,
       require_resolve w (entry_path lib hook) = returns file
       ∧ (load_hook w file = throws e
          ∨ load_hook w file = returns (throws e))) →
  ∃ s' calls,
    hook_turn K lib w hook s = Ok tt s'
    ∧ trace s'
      = trace s ++ calls ++
          [call_logger warn
             (text ("Couldn't register hook "
                      +:+ dquote +:+ name hook +:+ dquote));
           call_logger warn (thrown e)]
    ∧ apiHooks s' = apiHooks s
    ∧ emitter s' = emitter s
    ∧ cron_tasks s' = cron_tasks s.
Proof.
  intros Hbad. unfold hook_turn, try_catch, registerHook, require.
  fold (entry_path lib hook). rewrite !bind_run.
  destruct Hbad as [Hres|(file & Hres & [Hload|Hload])]; rewrite Hres; simpl.
  - mrun. eexists _, []. repeat split. simpl. rewrite <- app_assoc.
    reflexivity.
  - rewrite !bind_run, Hload. mrun. eexists _, []. repeat split. simpl.
    rewrite <- app_assoc. reflexivity.
  - rewrite !bind_run, Hload. mrun. eexists _, [_]. repeat split. simpl.
    rewrite <- !app_assoc. reflexivity.
Qed.

(** ** Discovery is all or nothing *)

Lemma after_discovery_extensions (w : World) (s : State) :
  keeps (λ x, extensions x = extensions s)
    (registerHooks K lib w;; registerEndpoints lib w;;
     bundle env K lib w;; finish).
Proof.
  assert (Hrec : ∀ x c, extensions x = extensions s →
            extensions (set_trace (trace x ++ [c]) x) = extensions s)
    by (intros x c Hx; exact Hx).
  apply keeps_bind.
  { apply keeps_registerHooks; [exact Hrec| |].
    - intros x f Hx. exact Hx.
    - apply keeps_registerHook_entry; try exact Hrec;
        intros x v Hx; exact Hx. }
  intros _. apply keeps_bind.
  { apply keeps_registerEndpoints; try exact Hrec; intros x v Hx; exact Hx. }
  intros _. apply keeps_bind.
  { unfold bundle. apply keeps_if; [|apply keeps_ret].
    apply keeps_bind; [apply keeps_generateExtensionBundles, Hrec|].
    intros bundles. apply keeps_modify. intros x Hx. exact Hx. }
  intros _. unfold finish, listExtensions.
  apply keeps_bind; [apply keeps_bind; [apply keeps_get|]|].
  { intros x. apply keeps_ret. }
  intros loaded. apply keeps_bind.
  - apply keeps_if; [apply keeps_logger, Hrec | apply keeps_ret].
  - intros _. apply keeps_modify. intros x Hx. exact Hx.
Qed.

Lemma initialize_after_discovery (w : World) (schedule' : bool) (s : State) :
  isInitialized s = false →
  initialize env K lib w schedule' s
  = match discover env K w (set_isScheduleHookEnabled schedule' s) with
    | Ok _ s1 =>
        (registerHooks K lib w;; registerEndpoints lib w;;
         bundle env K lib w;; finish) s1
    | Throw e s1 => Throw e s1
    end.
Proof.
  intros Hinit. rewrite (initialize_uninitialized env K lib _ _ _ Hinit).
  unfold registration. rewrite !bind_run.
  destruct (discover env K w _) as [[] s1|e s1]; [|reflexivity].
  rewrite !bind_run.
  destruct (registerHooks K lib w s1) as [[] s2|e s2]; [|reflexivity].
  rewrite !bind_run.
  destruct (registerEndpoints lib w s2) as [[] s3|e s3]; reflexivity.
Qed.

(** X15.  Discovery is all or nothing: when any of its three calls throws
    in an [initialize] that runs it, the extension list of the manager is
    afterwards the one it had before, whether [initialize] then completes or
    fails in the bundler.  Package extensions that were found before the
    local ones failed are dropped with the rest. *)
Theorem failed_discovery_keeps_list (w : World) (schedule' : bool)
    (s : State) :
  isInitialized s = false →
  discovery_fails env K w →
  extensions (state_of (initialize env K lib w schedule' s)) = extensions s.
Proof.
  intros Hinit Hfail. rewrite (initialize_after_discovery w _ s Hinit).
  destruct (discover_failed env K w (set_isScheduleHookEnabled schedule' s)
              Hfail) as (e & calls & _ & _ & ->).
  apply (after_discovery_extensions w s). reflexivity.
Qed.

(** ** Extensions for the app *)

Lemma filter_none {A : Type} (P : A → Prop) `{∀ x, Decision (P x)}
    (l : list A) :
  (∀ x, x ∈ l → ¬ P x) → filter P l = [].
Proof.
  induction l as [|x l IH]; intros Hl; [reflexivity|].
  rewrite filter_cons_False by (apply Hl; left).
  apply IH. intros y Hy. apply Hl. right. exact Hy.
Qed.

(** X16.  The registrars load nothing but hooks and endpoints: on a manager
    whose extensions are all of other types, [registerHooks] and
    [registerEndpoints] return without requiring a module, logging or
    changing anything. *)
Theorem registrars_skip_app_extensions (w : World) (s : State) :
  (∀ extension, extension ∈ extensions s →
     type extension ≠ "hook" ∧ type extension ≠ "endpoint") →
  registerHooks K lib w s = Ok tt s
  ∧ registerEndpoints lib w s = Ok tt s.
Proof.
  intros Htypes. split.
  - rewrite registerHooks_run, filter_none; [reflexivity|].
    intros x Hx. apply (Htypes x Hx).
  - rewrite registerEndpoints_run, filter_none; [reflexivity|].
    intros x Hx. apply (Htypes x Hx).
Qed.

End Further.

(** * The further properties on the concrete host *)

Lemma getSharedDepsMapping_result_witness :
  ∃ mapping s',
    getSharedDepsMapping Demo.app_env Demo.lib Demo.world
      ["@directus/extensions-sdk"; "vue"] new_ExtensionManager
    = Ok mapping s'
    ∧ NoDup mapping.*1
    ∧ (∀ d u, (d, u) ∈ mapping ↔
         d ∈ ["@directus/extensions-sdk"; "vue"]
         ∧ shared_dep_url Demo.app_env Demo.lib
             ["vue.1a2b.js"; "index.html"] d = Some u)
    ∧ (∀ d, d ∈ ["@directus/extensions-sdk"; "vue"] →
         shared_dep_url Demo.app_env Demo.lib
           ["vue.1a2b.js"; "index.html"] d = None →
         shared_dep_warning d ∈ trace s')
    ∧ s' = set_trace (trace s') new_ExtensionManager.
Proof.
  apply (getSharedDepsMapping_result Demo.app_env Demo.lib Demo.world).
  reflexivity.
Defined.

Example shared_deps_on_the_concrete_host :
  shared_dep_url Demo.app_env Demo.lib ["vue.1a2b.js"; "index.html"] "vue"
  = Some "/admin/vue.1a2b.js"
  ∧ shared_dep_url Demo.app_env Demo.lib ["vue.1a2b.js"; "index.html"]
      "@directus/extensions-sdk" = None.
Proof. split; reflexivity. Qed.


Lemma demo_resolves : resolves Demo.world.
Proof. intros p. exists p. reflexivity. Defined.



Lemma initialize_api_completes_witness :
  ∃ s',
    initialize Demo.api_env Demo.K Demo.lib Demo.world_no_dirs false
      new_ExtensionManager = Ok tt s'
    ∧ isInitialized s' = true
    ∧ isScheduleHookEnabled s' = false
    ∧ appExtensions s' = appExtensions new_ExtensionManager.
Proof.
  apply (initialize_api_completes Demo.api_env Demo.K Demo.lib
           Demo.world_no_dirs false new_ExtensionManager).
  reflexivity.
Defined.

Lemma reloaded_tasks_stay_silent_witness :
  fire Demo.world 0
    (state_of (reload Demo.api_env Demo.K Demo.lib Demo.world
                 (run Demo.api_env Demo.K Demo.lib
                    [(Demo.world, op_initialize true)] new_ExtensionManager)))
  = Ok tt
      (state_of (reload Demo.api_env Demo.K Demo.lib Demo.world
                   (run Demo.api_env Demo.K Demo.lib
                      [(Demo.world, op_initialize true)]
                      new_ExtensionManager))).
Proof.
  apply (reloaded_tasks_stay_silent Demo.api_env Demo.K Demo.lib
           [(Demo.world, op_initialize true)] Demo.world Demo.world
           "./extensions/hooks/mailer/index.js" 0).
  - vm_compute. reflexivity.
  - vm_compute. reflexivity.
  - vm_compute. left.
Defined.

Lemma unregisterEndpoints_result_witness :
  ∃ s',
    unregisterEndpoints Demo.world Demo.initialized_api = Ok tt s'
    ∧ endpointRouter s' = []
    ∧ apiEndpoints s' = []
    ∧ (∀ f, f ∈ require_cache s' ↔
         f ∈ require_cache Demo.initialized_api
         ∧ ∀ p, p ∈ apiEndpoints Demo.initialized_api →
                require_resolve Demo.world p ≠ returns f)
    ∧ apiHooks s' = apiHooks Demo.initialized_api
    ∧ emitter s' = emitter Demo.initialized_api
    ∧ cron_tasks s' = cron_tasks Demo.initialized_api
    ∧ trace s' = trace Demo.initialized_api.
Proof.
  apply (unregisterEndpoints_result Demo.world Demo.initialized_api).
  intros p _. apply demo_resolves.
Defined.


Lemma reload_api_completes_witness :
  ∃ s',
    reload Demo.api_env Demo.K Demo.lib Demo.world_events
      Demo.initialized_events = Ok tt s'
    ∧ isInitialized s' = isInitialized Demo.initialized_events
    ∧ (isInitialized Demo.initialized_events = false →
       s' = Demo.initialized_events)
    ∧ (isInitialized Demo.initialized_events = true →
       ∃ mid,
         teardown Demo.api_env Demo.world_events Demo.initialized_events
         = Ok tt mid
         ∧ initialize Demo.api_env Demo.K Demo.lib Demo.world_events true mid
           = Ok tt s'
         ∧ trace mid
           = trace Demo.initialized_events
               ++ [call_logger info (text "Reloading extensions")]
         ∧ isInitialized mid = false
         ∧ apiHooks mid = []
         ∧ apiEndpoints mid = []
         ∧ endpointRouter mid = []
         ∧ (∀ p task,
              cron_hook p task ∈ apiHooks Demo.initialized_events →
              ¬ active_task mid task)
         ∧ emitter mid
           = foldl (λ em sub, remove_first sub em)
               (emitter Demo.initialized_events)
               (recorded_subscriptions (apiHooks Demo.initialized_events))
         ∧ trace mid `prefix_of` trace s'
         ∧ isScheduleHookEnabled s' = true
         ∧ appExtensions s' = appExtensions Demo.initialized_events
         ∧ endpointRouter s'
           = omap (mounted_route Demo.lib Demo.world_events)
               (filter (λ e, type e = "endpoint") (extensions s'))
         ∧ apiEndpoints s'
           = omap (recorded_endpoint Demo.lib Demo.world_events)
               (filter (λ e, type e = "endpoint") (extensions s'))).
Proof.
  apply (reload_api_completes Demo.api_env Demo.K Demo.lib Demo.world_events
           Demo.initialized_events).
  - reflexivity.
  - split.
    + intros hook _. eexists. reflexivity.
    + intros p _. eexists. reflexivity.
Defined.

(** The reload on the concrete host: the routes and the records are those
    of one registration, not of two. *)
Example reload_on_the_concrete_host :
  endpointRouter Demo.initialized_events = ["/broken"; "/statistics"]
  ∧ apiEndpoints Demo.initialized_events = ["./extensions/endpoints/stats/"]
  ∧ ∃ s',
      reload Demo.api_env Demo.K Demo.lib Demo.world_events
        Demo.initialized_events = Ok tt s'
      ∧ endpointRouter s' = ["/broken"; "/statistics"]
      ∧ apiEndpoints s' = ["./extensions/endpoints/stats/"]
      ∧ emitter s' = [("items.delete", 4)]
      ∧ apiHooks s'
        = [event_hook "./extensions/hooks/audit/index.js" "items.delete" 4].
Proof.
  split; [vm_compute; reflexivity|]. split; [vm_compute; reflexivity|].
  eexists. split; [vm_compute; reflexivity|].
  repeat split; vm_compute; reflexivity.
Qed.

Lemma install_before_initialize_witness :
  install Demo.api_env Demo.K Demo.lib Demo.world "directus-extension-charts"
    new_ExtensionManager
  = Ok true
      (set_trace
         (trace new_ExtensionManager
            ++ [call_installPackage "directus-extension-charts"])
         new_ExtensionManager).
Proof.
  apply (install_before_initialize Demo.api_env Demo.K Demo.lib Demo.world
           "directus-extension-charts" new_ExtensionManager).
  - reflexivity.
  - vm_compute. reflexivity.
  - reflexivity.
Defined.

Lemma registerHook_result_witness :
  ∃ s',
    registerHook Demo.K Demo.lib Demo.world Demo.mailer new_ExtensionManager
    = Ok tt s'
    ∧ emitter s'
      = emitter new_ExtensionManager
          ++ filter plain_event
               [("cron(not-a-schedule)", 1); ("cron(* * * * *)", 2);
                ("items.create", 3)]
    ∧ recorded_subscriptions (apiHooks s')
      = recorded_subscriptions (apiHooks new_ExtensionManager)
          ++ filter plain_event
               [("cron(not-a-schedule)", 1); ("cron(* * * * *)", 2);
                ("items.create", 3)]
    ∧ length (cron_tasks s')
      = length (cron_tasks new_ExtensionManager)
        + length (filter (scheduled_entry Demo.K Demo.lib)
                    [("cron(not-a-schedule)", 1); ("cron(* * * * *)", 2);
                     ("items.create", 3)])
    ∧ length (apiHooks s')
      = length (apiHooks new_ExtensionManager)
        + length (filter plain_event
                    [("cron(not-a-schedule)", 1); ("cron(* * * * *)", 2);
                     ("items.create", 3)])
        + length (filter (scheduled_entry Demo.K Demo.lib)
                    [("cron(not-a-schedule)", 1); ("cron(* * * * *)", 2);
                     ("items.create", 3)])
    ∧ require_cache s'
      = {["./extensions/hooks/mailer/index.js"]}
          ∪ require_cache new_ExtensionManager
    ∧ endpointRouter s' = endpointRouter new_ExtensionManager
    ∧ apiEndpoints s' = apiEndpoints new_ExtensionManager.
Proof.
  apply (registerHook_result Demo.K Demo.lib Demo.world Demo.mailer
           "./extensions/hooks/mailer/index.js").
  - reflexivity.
  - reflexivity.
Defined.

Example mailer_entries_on_the_concrete_host :
  filter plain_event
    [("cron(not-a-schedule)", 1); ("cron(* * * * *)", 2); ("items.create", 3)]
  = [("items.create", 3)]
  ∧ filter (scheduled_entry Demo.K Demo.lib)
      [("cron(not-a-schedule)", 1); ("cron(* * * * *)", 2); ("items.create", 3)]
    = [("cron(* * * * *)", 2)].
Proof. split; vm_compute; reflexivity. Qed.

Lemma unloadable_hook_reported_witness :
  ∃ s' calls,
    hook_turn Demo.K Demo.lib Demo.world_missing_module Demo.audit
      new_ExtensionManager = Ok tt s'
    ∧ trace s'
      = trace new_ExtensionManager ++ calls ++
          [call_logger warn
             (text ("Couldn't register hook "
                      +:+ dquote +:+ name Demo.audit +:+ dquote));
           call_logger warn (thrown "MODULE_NOT_FOUND")]
    ∧ apiHooks s' = apiHooks new_ExtensionManager
    ∧ emitter s' = emitter new_ExtensionManager
    ∧ cron_tasks s' = cron_tasks new_ExtensionManager.
Proof.
  apply (unloadable_hook_reported Demo.K Demo.lib Demo.world_missing_module
           Demo.audit "MODULE_NOT_FOUND" new_ExtensionManager).
  left. reflexivity.
Defined.

Lemma failed_discovery_keeps_list_witness :
  extensions
    (state_of (initialize Demo.api_env Demo.K Demo.lib Demo.world_no_local
                 true Demo.app_only))
  = extensions Demo.app_only.
Proof.
  apply (failed_discovery_keeps_list Demo.api_env Demo.K Demo.lib
           Demo.world_no_local true Demo.app_only).
  - reflexivity.
  - right. right. exists "EIO". reflexivity.
Defined.

Lemma registrars_skip_app_extensions_witness :
  registerHooks Demo.K Demo.lib Demo.world Demo.app_only = Ok tt Demo.app_only
  ∧ registerEndpoints Demo.lib Demo.world Demo.app_only = Ok tt Demo.app_only.
Proof.
  apply (registrars_skip_app_extensions Demo.K Demo.lib Demo.world
           Demo.app_only).
  intros extension Hin. simpl in Hin.
  apply elem_of_cons in Hin as [->|Hin]; [split; discriminate|].
  apply list_elem_of_singleton in Hin as ->. split; discriminate.
Defined.
